(** * nested-pie-chart: a shallow embedding of [nested-pie-chart.py]

    The script reads a CSV table of directional risk levels around a
    site, builds one inner and one outer ring sector per direction and
    writes them as one GeoJSON feature collection.

    What is modelled, and how:
    - a CSV row, as [csv.DictReader] yields it, is a dictionary from
      field names to values, a value being a string or [None] (the
      reader's filler for a row shorter than the header);
    - Python exceptions are the constructors of [exn]; a function that
      can raise returns a [result];
    - Python floats are an interface ([Float], [Math]) with two
      instances: [binary64], the IEEE arithmetic the interpreter runs,
      and [exact], the real numbers;
    - the libraries shapely, geojson and pyproj are taken at their
      interface: [shapely_Polygon] closes the shell it is given,
      [geojson_Feature] rounds every coordinate to six decimals,
      building the projection may raise, and the coordinate transformer
      it gives is a function. *)

From Stdlib Require Import Ascii Floats Reals Lra ZArith.
From stdpp Require Import gmap strings list.

(** ** Exceptions and results *)

Inductive exn : Type :=
  | KeyError (key : string)            (* d[key], key not in d *)
  | ValueError (msg : string)          (* unpacking, float(str), raise *)
  | AttributeError (msg : string)      (* None.split *)
  | TypeError (msg : string)           (* float(None) *)
  | ZeroDivisionError (msg : string)   (* x / 0 *)
  | CRSError (msg : string).           (* pyproj: Proj(...) on parameters it refuses *)

Inductive result (A : Type) : Type :=
  | Ok (a : A)
  | Raise (e : exn).
Arguments Ok {A} a.
Arguments Raise {A} e.

#[global] Instance result_ret : MRet result := @Ok.
#[global] Instance result_bind : MBind result :=
  fun A B (f : A -> result B) (m : result A) =>
    match m with
    | Ok a => f a
    | Raise e => Raise e
    end.

Definition is_Ok {A} (m : result A) : Prop := exists a, m = Ok a.

(** ** Python values and dictionaries *)

(** A field of a DictReader row: a string, or None. *)
Inductive value : Type :=
  | PyNone
  | PyStr (s : string).

#[global] Instance value_eq_dec : EqDecision value.
Proof. solve_decision. Defined.

(** [d[k]] *)
Definition getitem {V} (d : gmap string V) (k : string) : result V :=
  match d !! k with
  | Some v => Ok v
  | None => Raise (KeyError k)
  end.

(** [s.split(sep)] for a non-empty separator: the pieces between the
    occurrences of [sep], found from the left and not overlapping.
    [skip] counts the characters of a separator still to be dropped. *)
Fixpoint split_from (sep : string) (skip : nat) (s : string) : list string :=
  match s with
  | EmptyString => [EmptyString]
  | String c rest =>
      match skip with
      | S k => split_from sep k rest
      | O =>
          if String.prefix sep s
          then EmptyString :: split_from sep (String.length sep - 1) rest
          else match split_from sep O rest with
               | piece :: pieces => String c piece :: pieces
               | [] => [String c EmptyString]
               end
      end
  end.

Definition split (s sep : string) : list string := split_from sep 0 s.

(** [sep.join(pieces)], the inverse of [split]. *)
Fixpoint join (sep : string) (pieces : list string) : string :=
  match pieces with
  | [] => EmptyString
  | [piece] => piece
  | piece :: rest => piece +:+ sep +:+ join sep rest
  end.

(** [v.split(sep)] on a row field: None has no such method. *)
Definition value_split (v : value) (sep : string) : result (list string) :=
  match v with
  | PyStr s => Ok (split s sep)
  | PyNone => Raise (AttributeError "'NoneType' object has no attribute 'split'")
  end.

(** [a, b = parts] *)
Definition unpack2 (parts : list string) : result (string * string) :=
  match parts with
  | [a; b] => Ok (a, b)
  | [] => Raise (ValueError "not enough values to unpack (expected 2, got 0)")
  | [_] => Raise (ValueError "not enough values to unpack (expected 2, got 1)")
  | _ => Raise (ValueError "too many values to unpack (expected 2)")
  end.

(** ** Floats *)

(** The float operations the script uses. [of_int] is the conversion an
    int operand undergoes next to a float one, [fdiv] is division by a
    divisor that is not zero (Python raises on zero before dividing).
    [float_of_string] is [float(s)] on a string, [None] where Python
    raises ValueError. *)
Class Float (F : Type) : Type := {
  float_of_string : string → option F;
  of_int : nat → F;
  fadd : F → F → F;
  fsub : F → F → F;
  fmul : F → F → F;
  fdiv : F → F → F
}.

(** The functions of the [math] module the script uses. *)
Class Math (F : Type) : Type := {
  radians : F → F;
  sin : F → F;
  cos : F → F
}.

(** What the geometry libraries do to a coordinate: [same_coord] is
    the comparison by which shapely finds a shell closed, [round6] is
    the [round(x, 6)] geojson applies to every coordinate it stores.
    The statements about rings hold for every instance; the one given
    below is that of exact arithmetic. *)
Class Geo (F : Type) : Type := {
  same_coord : F → F → bool;
  round6 : F → F
}.

(** *** Reading a decimal literal

    The two instances below read plain decimal literals
    ([-]digits[.digits]) and nothing else; [float] accepts more
    spellings (exponents, inf, nan, surrounding blanks), which are left
    outside the instances' domain. *)

Definition digit_of (c : ascii) : option Z :=
  let n := Z.of_nat (nat_of_ascii c) in
  if (48 <=? n)%Z && (n <=? 57)%Z then Some (n - 48)%Z else None.

(** Reads digits into an accumulator; the count of digits read comes back
    with the number. *)
Fixpoint read_digits (s : string) (acc : Z) (count : nat) : option (Z * nat) :=
  match s with
  | EmptyString => Some (acc, count)
  | String c rest =>
      match digit_of c with
      | Some d => read_digits rest (10 * acc + d)%Z (S count)
      | None => None
      end
  end.

(** Position of the first ['.'], if any: the text before it and after it. *)
Fixpoint cut_at_dot (s : string) : string * option string :=
  match s with
  | EmptyString => (EmptyString, None)
  | String c rest =>
      if Ascii.eqb c "."%char then (EmptyString, Some rest)
      else let '(a, b) := cut_at_dot rest in (String c a, b)
  end.

(** mantissa and number of fractional digits of an unsigned literal *)
Definition read_unsigned (s : string) : option (Z * nat) :=
  match cut_at_dot s with
  | (EmptyString, _) => None
  | (whole, None) => '(m, _) ← read_digits whole 0%Z 0%nat; Some (m, 0%nat)
  | (whole, Some frac) =>
      '(m, _) ← read_digits whole 0%Z 0%nat;
      '(m', k) ← read_digits frac m 0%nat;
      Some (m', k)
  end.

(** sign, mantissa and number of fractional digits *)
Definition read_decimal (s : string) : option (bool * Z * nat) :=
  match s with
  | String "-"%char rest => '(m, k) ← read_unsigned rest; Some (true, m, k)
  | _ => '(m, k) ← read_unsigned s; Some (false, m, k)
  end.

(** *** IEEE binary64, the arithmetic of the interpreter *)

Definition float_of_Z (z : Z) : float := PrimFloat.of_uint63 (Uint63.of_Z z).

Definition float_of_nat (n : nat) : float := float_of_Z (Z.of_nat n).

(** Mantissa and power of ten are exact in binary64 for the literals of
    interest (at most 15 digits), so the one rounding of the division is
    the rounding [float] performs. *)
Definition binary64_of_string (s : string) : option float :=
  '(neg, m, k) ← read_decimal s;
  let x := PrimFloat.div (float_of_Z m) (float_of_Z (10 ^ Z.of_nat k)) in
  Some (if neg : bool then PrimFloat.opp x else x).

#[global] Instance binary64 : Float float := {|
  float_of_string := binary64_of_string;
  of_int := float_of_nat;
  fadd := PrimFloat.add;
  fsub := PrimFloat.sub;
  fmul := PrimFloat.mul;
  fdiv := PrimFloat.div
|}.

(** *** Exact arithmetic: the real numbers *)

Definition real_of_string (s : string) : option R :=
  '(neg, m, k) ← read_decimal s;
  let x := (IZR m / IZR (10 ^ Z.of_nat k))%R in
  Some (if neg : bool then (- x)%R else x).

#[global] Instance exact : Float R := {|
  float_of_string := real_of_string;
  of_int := INR;
  fadd := Rplus;
  fsub := Rminus;
  fmul := Rmult;
  fdiv := Rdiv
|}.

#[global] Instance exact_math : Math R := {|
  radians := fun x => (x * PI / 180)%R;
  sin := Rtrigo_def.sin;
  cos := Rtrigo_def.cos
|}.

(** The integer nearest to a real, the even one of the two at a tie. *)
Definition nearest_even (x : R) : Z :=
  let n := up (x - 1 / 2) in
  if Req_dec_T (IZR n) (x + 1 / 2)
  then (if Z.even n then n else n - 1)%Z
  else n.

(** [round(x, 6)] on a real: the nearest multiple of one millionth. *)
Definition real_round6 (x : R) : R := (IZR (nearest_even (x * 1000000)) / 1000000)%R.

#[global] Instance exact_geo : Geo R := {|
  same_coord := fun x y => if Req_dec_T x y then true else false;
  round6 := real_round6
|}.

(** ** The program *)

(** A point is a pair of floats: (x, y) in the local plane,
    (longitude, latitude) on the globe. *)
Definition point (F : Type) : Type := (F * F)%type.

(** A shapely polygon: its shell, which shapely keeps closed.
    [mapping] gives the coordinates of the GeoJSON geometry. *)
Record Polygon (F : Type) : Type := { exterior : list (point F) }.
Arguments exterior {F} _.
Arguments Build_Polygon {F} _.

Definition mapping {F} (p : Polygon F) : list (point F) := exterior p.

Definition same_point {F} `{!Geo F} (p q : point F) : bool :=
  same_coord p.1 q.1 && same_coord p.2 q.2.

(** A shell that does not end where it starts gets its first vertex
    once more at the end. *)
Definition close_ring {F} `{!Geo F} (points : list (point F)) : list (point F) :=
  match points, last points with
  | p :: _, Some q => if same_point p q then points else points ++ [p]
  | _, _ => points
  end.

(** [shapely.geometry.Polygon(points)]. The script builds shells of 33
    and of 62 points only; that shapely refuses a shell of one or two
    points is never met and is left out. *)
Definition shapely_Polygon {F} `{!Geo F} (points : list (point F)) : Polygon F :=
  {| exterior := close_ring points |}.

Definition round_point {F} `{!Geo F} (p : point F) : point F :=
  (round6 p.1, round6 p.2).

(** The [properties] dictionary of a feature: its two keys. *)
Record properties : Type := { Area : string; Risk : value }.

(** A geojson feature: the ring of its polygon and its properties. *)
Record Feature (F : Type) : Type := {
  geometry : list (point F);
  props : properties
}.
Arguments geometry {F} _.
Arguments props {F} _.
Arguments Build_Feature {F} _ _.

(** [geojson.Feature(geometry=..., properties=...)]: the geometry is
    stored with every coordinate rounded to six decimals. *)
Definition geojson_Feature {F} `{!Geo F} (coordinates : list (point F))
    (properties : properties) : Feature F :=
  {| geometry := round_point <$> coordinates; props := properties |}.

(** [geojson.FeatureCollection(features)] *)
Record FeatureCollection (F : Type) : Type := { features : list (Feature F) }.
Arguments features {F} _.
Arguments Build_FeatureCollection {F} _.

(** The locals of [load_csv_data] while it reads the rows. [directions]
    is the key list of the insertion-ordered dictionary of the source. *)
Record loader (F : Type) : Type := {
  directions : list string;
  risks : gmap string (gmap string value);
  center : option (point F)
}.
Arguments directions {F} _.
Arguments risks {F} _.
Arguments center {F} _.
Arguments Build_loader {F} _ _ _.

Section Script.
Context {F : Type} `{!Float F} `{!Math F} `{!Geo F}.

(** [float(v)] on a row field. The message of the ValueError goes on,
    in Python, with the text that could not be read; it is cut short
    here. *)
Definition to_float (v : value) : result F :=
  match v with
  | PyNone => Raise (TypeError "float() argument must be a string or a real number, not 'NoneType'")
  | PyStr s =>
      match float_of_string s with
      | Some x => Ok x
      | None => Raise (ValueError "could not convert string to float")
      end
  end.

(** [a / b] for two ints *)
Definition int_div (a b : nat) : result F :=
  match b with
  | O => Raise (ZeroDivisionError "division by zero")
  | S _ => Ok (fdiv (of_int a) (of_int b))
  end.

(** [x / b] for a float and an int *)
Definition div_int (x : F) (b : nat) : result F :=
  match b with
  | O => Raise (ZeroDivisionError "float division by zero")
  | S _ => Ok (fdiv x (of_int b))
  end.

(** *** [load_csv_data] *)

Definition loader_init : loader F :=
  {| directions := []; risks := {[ "R1" := ∅; "R2" := ∅ ]}; center := None |}.

(** One turn of the loop over the rows. *)
Definition load_row (st : loader F) (row : gmap string value) : result (loader F) :=
  area ← getitem row "Area";
  if decide (area = PyStr "Site") then
    lon ← getitem row "Lon_NO" ≫= to_float;
    lat ← getitem row "Lat_NO" ≫= to_float;
    Ok {| directions := directions st; risks := risks st; center := Some (lon, lat) |}
  else
    parts ← value_split area "_R";
    '(direction, radius) ← unpack2 parts;
    let radius_key := "R" +:+ radius in
    risk ← getitem row "Risk";
    let directions' :=
      if decide (direction ∈ directions st) then directions st
      else directions st ++ [direction] in
    tier ← getitem (risks st) radius_key;
    Ok {| directions := directions';
          risks := <[radius_key := <[direction := risk]> tier]> (risks st);
          center := center st |}.

Fixpoint load_rows (st : loader F) (rows : list (gmap string value)) : result (loader F) :=
  match rows with
  | [] => Ok st
  | row :: rows' => st' ← load_row st row; load_rows st' rows'
  end.

Definition center_not_found : exn :=
  ValueError "Center (site row) not found in the CSV file.".

Definition load_csv_data (rows : list (gmap string value))
  : result (list string * gmap string (gmap string value) * point F) :=
  st ← load_rows loader_init rows;
  match center st with
  | None => Raise center_not_found
  | Some c => Ok (directions st, risks st, c)
  end.

(** *** [calculate_arc_points] *)

(** The body of the loop, for one value of [angle]. The point count is
    a natural number; the script only ever passes the default, 30. *)
Definition arc_point (radius start_angle end_angle : F)
    (transformer_to_geo : F → F → point F) (num_points angle : nat) : result (point F) :=
  q ← div_int (fmul (fsub end_angle start_angle) (of_int angle)) num_points;
  let theta := radians (fadd start_angle q) in
  let x := fmul radius (sin theta) in
  let y := fmul radius (cos theta) in
  Ok (transformer_to_geo x y).

Definition calculate_arc_points (center : point F) (radius start_angle end_angle : F)
    (transformer_to_geo : F → F → point F) (num_points : nat) : result (list (point F)) :=
  mapM (arc_point radius start_angle end_angle transformer_to_geo num_points)
       (seq 0 (num_points + 1)).

(** The angle of sample [k] out of [n], in radians, and the point
    sampled there: what [arc_point] computes when it does not raise. *)
Definition theta (start_angle end_angle : F) (n k : nat) : F :=
  radians (fadd start_angle (fdiv (fmul (fsub end_angle start_angle) (of_int k)) (of_int n))).

Definition sample (radius start_angle end_angle : F)
    (transformer_to_geo : F → F → point F) (n k : nat) : point F :=
  transformer_to_geo (fmul radius (sin (theta start_angle end_angle n k)))
                     (fmul radius (cos (theta start_angle end_angle n k))).

(** *** [generate_pie_chart] *)

(** Start and end angle of segment [i] out of [num_segments]: the first
    two statements of the loop body. *)
Definition segment_angles (num_segments i : nat) : result (F * F) :=
  width ← int_div 360 num_segments;
  let start_angle := fmul (of_int i) width in
  width' ← int_div 360 num_segments;
  let end_angle := fadd start_angle width' in
  Ok (start_angle, end_angle).

(** The inner circle (R1) of one turn of the loop: the arc on the inner
    radius and the feature of the pie slice. The risk is looked up when
    the properties are built, after the polygon. *)
Definition inner_sector (risks : gmap string (gmap string value))
    (center : point F) (radius_inner : F) (transformer_to_geo : F → F → point F)
    (start_angle end_angle : F) (direction : string)
  : result (list (point F) * Feature F) :=
  inner_arc_points ←
    calculate_arc_points center radius_inner start_angle end_angle transformer_to_geo 30;
  let inner_polygon_points := [center] ++ inner_arc_points ++ [center] in
  let inner_polygon := shapely_Polygon inner_polygon_points in
  risk ← getitem risks "R1" ≫= (fun tier => getitem tier direction);
  Ok (inner_arc_points,
      geojson_Feature (mapping inner_polygon)
        {| Area := direction +:+ "_R1"; Risk := risk |}).

(** The outer circle (R2) of the same turn: the strip between the arc
    on the outer radius and the inner arc walked backwards. *)
Definition outer_sector (risks : gmap string (gmap string value))
    (center : point F) (radius_outer : F) (transformer_to_geo : F → F → point F)
    (start_angle end_angle : F) (direction : string)
    (inner_arc_points : list (point F))
  : result (Feature F) :=
  outer_arc_points ←
    calculate_arc_points center radius_outer start_angle end_angle transformer_to_geo 30;
  let outer_polygon_points := outer_arc_points ++ rev inner_arc_points in
  let outer_polygon := shapely_Polygon outer_polygon_points in
  risk ← getitem risks "R2" ≫= (fun tier => getitem tier direction);
  Ok (geojson_Feature (mapping outer_polygon)
        {| Area := direction +:+ "_R2"; Risk := risk |}).

(** One turn of the loop: the inner and the outer feature of a direction. *)
Definition sector (num_segments : nat) (risks : gmap string (gmap string value))
    (center : point F) (radius_inner radius_outer : F)
    (transformer_to_geo : F → F → point F) (i : nat) (direction : string)
  : result (Feature F * Feature F) :=
  '(start_angle, end_angle) ← segment_angles num_segments i;
  '(inner_arc_points, inner_feature) ←
    inner_sector risks center radius_inner transformer_to_geo
      start_angle end_angle direction;
  outer_feature ←
    outer_sector risks center radius_outer transformer_to_geo
      start_angle end_angle direction inner_arc_points;
  Ok (inner_feature, outer_feature).

(** The loop over [enumerate(directions)], from index [i] on, appending
    to the two feature lists. *)
Fixpoint sectors_from (num_segments : nat) (risks : gmap string (gmap string value))
    (center : point F) (radius_inner radius_outer : F)
    (transformer_to_geo : F → F → point F) (i : nat) (directions : list string)
    (inner_features outer_features : list (Feature F))
  : result (list (Feature F) * list (Feature F)) :=
  match directions with
  | [] => Ok (inner_features, outer_features)
  | direction :: rest =>
      '(inner_feature, outer_feature) ←
        sector num_segments risks center radius_inner radius_outer
               transformer_to_geo i direction;
      sectors_from num_segments risks center radius_inner radius_outer
        transformer_to_geo (S i) rest
        (inner_features ++ [inner_feature]) (outer_features ++ [outer_feature])
  end.

Definition generate_pie_chart (directions : list string)
    (risks : gmap string (gmap string value)) (center : point F)
    (radius_inner radius_outer : F) (transformer_to_geo : F → F → point F)
  : result (FeatureCollection F * FeatureCollection F) :=
  let num_segments := length directions in
  '(inner_features, outer_features) ←
    sectors_from num_segments risks center radius_inner radius_outer
      transformer_to_geo 0 directions [] [];
  Ok (Build_FeatureCollection inner_features, Build_FeatureCollection outer_features).

(** *** [merge_inner_outer] *)

Definition merge_inner_outer (inner outer : FeatureCollection F) : FeatureCollection F :=
  let merged_features := features inner ++ features outer in
  Build_FeatureCollection merged_features.

(** *** [main]

    [rows] is what the reader yields for input.csv; the result, when
    there is one, is the collection dumped to nested_pie_chart.geojson.
    [projection lat_0 lon_0] stands for the three statements that build
    the azimuthal equidistant projection centred there and its two
    transformers: it raises when pyproj refuses the parameters, and
    gives the transformer back to WGS84 otherwise. *)
Definition main (projection : F → F → result (F → F → point F))
    (rows : list (gmap string value)) : result (FeatureCollection F) :=
  '(directions, risks, center) ← load_csv_data rows;
  transformer_to_geo ← projection center.2 center.1;
  '(inner_pie_chart, outer_pie_chart) ←
    generate_pie_chart directions risks center (of_int 100) (of_int 200) transformer_to_geo;
  let nested_pie_chart := merge_inner_outer inner_pie_chart outer_pie_chart in
  Ok nested_pie_chart.

(** *** Vocabulary of the statements *)

(** A direction has a risk in both tiers. *)
Definition complete (risks : gmap string (gmap string value)) (direction : string) : Prop :=
  ∃ tier1 tier2 risk1 risk2,
    risks !! "R1" = Some tier1 ∧ tier1 !! direction = Some risk1
    ∧ risks !! "R2" = Some tier2 ∧ tier2 !! direction = Some risk2.

(** The coordinates a Site row carries, as the loader reads them. *)
Definition site_center (row : gmap string value) : result (point F) :=
  lon ← getitem row "Lon_NO" ≫= to_float;
  lat ← getitem row "Lat_NO" ≫= to_float;
  Ok (lon, lat).

(** Two loader states with the same directions and the same risks. *)
Definition same_tables (st1 st2 : loader F) : Prop :=
  directions st1 = directions st2 ∧ risks st1 = risks st2.

(** What holds of the loader's locals all along the loop: the two tiers
    are the keys of [risks], no direction is listed twice, and every
    direction with a risk is listed. *)
Record loader_inv (st : loader F) : Prop := {
  inv_tiers : ∀ key, is_Some (risks st !! key) ↔ key = "R1" ∨ key = "R2";
  inv_nodup : NoDup (directions st);
  inv_listed : ∀ key tier d,
    risks st !! key = Some tier → is_Some (tier !! d) → d ∈ directions st
}.

End Script.

(** The row that carries the centre. *)
Definition is_site (row : gmap string value) : Prop :=
  row !! "Area" = Some (PyStr "Site").

#[global] Instance is_site_dec (row : gmap string value) : Decision (is_site row).
Proof. unfold is_site. apply _. Defined.

(** The Area of the row reads <direction>_R<tier> with tier 1 or 2. *)
Definition decomposes (row : gmap string value) : Prop :=
  ∃ direction tier,
    row !! "Area" = Some (PyStr (direction +:+ "_R" +:+ tier))
    ∧ (tier = "1" ∨ tier = "2").

(** ** Tables and a transformer for the examples *)

(** Rows as the reader yields them under the header
    Area,Risk,Lon_NO,Lat_NO: the Site row, a risk row, and a row cut
    short after its Area, whose other fields the reader fills with None. *)
Definition site_row (lon lat : string) : gmap string value :=
  {[ "Area" := PyStr "Site"; "Risk" := PyStr "";
     "Lon_NO" := PyStr lon; "Lat_NO" := PyStr lat ]}.

Definition risk_row (area risk : string) : gmap string value :=
  {[ "Area" := PyStr area; "Risk" := PyStr risk;
     "Lon_NO" := PyStr ""; "Lat_NO" := PyStr "" ]}.

Definition short_row (area : string) : gmap string value :=
  {[ "Area" := PyStr area; "Risk" := PyNone;
     "Lon_NO" := PyNone; "Lat_NO" := PyNone ]}.

(** A Site row under the header Area,Risk,Lon,Lat. *)
Definition lon_lat_site_row (lon lat : string) : gmap string value :=
  {[ "Area" := PyStr "Site"; "Risk" := PyStr "";
     "Lon" := PyStr lon; "Lat" := PyStr lat ]}.

(** A stand-in for the inverse projection in the examples: the local
    plane laid on the globe by a translation, origin on the centre. *)
Definition planar_to_geo (lat_0 lon_0 x y : R) : point R :=
  ((lon_0 + x)%R, (lat_0 + y)%R).

(** A stand-in for building the projection: it refuses a latitude
    outside [-90, 90], as pyproj does, and gives the translation
    otherwise. *)
Definition planar_projection (lat_0 lon_0 : R) : result (R → R → point R) :=
  if Rle_dec (-90) lat_0
  then if Rle_dec lat_0 90
       then Ok (planar_to_geo lat_0 lon_0)
       else Raise (CRSError "Invalid latitude")
  else Raise (CRSError "Invalid latitude").

(** The table of four directions around (10.0, 45.0). *)
Definition compass_table : list (gmap string value) :=
  [ site_row "10.0" "45.0";
    risk_row "N_R1" "High"; risk_row "N_R2" "Low";
    risk_row "E_R1" "Low"; risk_row "E_R2" "Low";
    risk_row "S_R1" "Medium"; risk_row "S_R2" "High";
    risk_row "W_R1" "Low"; risk_row "W_R2" "Medium" ].

Definition compass_directions : list string := ["N"; "E"; "S"; "W"].

Definition compass_inner : gmap string value :=
  {[ "N" := PyStr "High"; "E" := PyStr "Low"; "S" := PyStr "Medium"; "W" := PyStr "Low" ]}.

Definition compass_outer : gmap string value :=
  {[ "N" := PyStr "Low"; "E" := PyStr "Low"; "S" := PyStr "High"; "W" := PyStr "Medium" ]}.

Definition compass_risks : gmap string (gmap string value) :=
  {[ "R1" := compass_inner; "R2" := compass_outer ]}.

(** One direction with both risks. *)
Definition lone_risks : gmap string (gmap string value) :=
  {[ "R1" := {[ "A" := PyStr "Low" ]}; "R2" := {[ "A" := PyStr "High" ]} ]}.

(** Direction A has an outer risk only, direction B an inner risk only. *)
Definition lopsided_table : list (gmap string value) :=
  [ site_row "10.0" "45.0"; risk_row "A_R2" "Low"; risk_row "B_R1" "High" ].

Definition lopsided_risks : gmap string (gmap string value) :=
  {[ "R1" := {[ "B" := PyStr "High" ]}; "R2" := {[ "A" := PyStr "Low" ]} ]}.

(** The compass table cut after the inner risk of E. *)
Definition cut_table : list (gmap string value) :=
  [ site_row "10.0" "45.0";
    risk_row "N_R1" "High"; risk_row "N_R2" "Low"; risk_row "E_R1" "Low" ].

Definition cut_inner : gmap string value := {[ "N" := PyStr "High"; "E" := PyStr "Low" ]}.

Definition cut_outer : gmap string value := {[ "N" := PyStr "Low" ]}.

(** A table with three Site rows. *)
Definition moved_site_table : list (gmap string value) :=
  [ site_row "1.0" "2.0"; risk_row "N_R1" "High"; site_row "3.0" "4.0";
    risk_row "N_R2" "Low"; site_row "10.0" "45.0" ].

(** ** Vocabulary of the further properties *)

(** The direction and the tier a row other than the Site row stands
    for: the two pieces of its Area, when it has exactly two. *)
Definition row_key (row : gmap string value) : option (string * string) :=
  match row !! "Area" with
  | Some (PyStr area) =>
      if decide (area = "Site") then None
      else match split area "_R" with
           | [direction; radius] => Some (direction, radius)
           | _ => None
           end
  | _ => None
  end.

(** [risks["R" + tier][direction]], None when either key is missing. *)
Definition lookup_risk (risks : gmap string (gmap string value))
    (direction tier : string) : option value :=
  risks !! ("R" +:+ tier) ≫= (fun mapping => mapping !! direction).

(** A row the loader takes whatever stands before it: a Site row whose
    coordinates read as floats, or another row whose Area splits at _R
    into a direction and a tier 1 or 2 and that has a Risk field. *)
Definition loadable {F} `{!Float F} (row : gmap string value) : Prop :=
  (is_site row ∧ is_Ok (site_center (F:=F) row))
  ∨ (¬ is_site row
     ∧ ∃ direction tier,
         row_key row = Some (direction, tier) ∧ (tier = "1" ∨ tier = "2")
         ∧ is_Some (row !! "Risk")).

(** The transformer that leaves a point in the local plane. *)
Definition stay_local (x y : R) : point R := (x, y).

(** * Properties *)

(** ** The result monad *)

Lemma bind_Ok {A B} (m : result A) (f : A → result B) (b : B) :
  m ≫= f = Ok b → ∃ a, m = Ok a ∧ f a = Ok b.
Proof. destruct m as [a|e]; simpl; [by exists a | discriminate]. Qed.

Lemma getitem_Ok {V} (d : gmap string V) (k : string) (v : V) :
  getitem d k = Ok v ↔ d !! k = Some v.
Proof. unfold getitem. destruct (d !! k); split; congruence. Qed.

(** Splits a hypothesis [m ≫= f = Ok b] into its two steps. *)
Ltac bind_inv H :=
  let a := fresh "a" in
  let Ha := fresh "H" a in
  apply bind_Ok in H as (a & Ha & H).

Tactic Notation "bind_split" hyp(H) "as" ident(a) ident(Ha) :=
  apply bind_Ok in H as (a & Ha & H).

(** A loop body that never raises maps over the whole list. *)
Lemma mapM_Ok {A B} (f : A → result B) (g : A → B) (l : list A) :
  (∀ x, x ∈ l → f x = Ok (g x)) → mapM f l = Ok (g <$> l).
Proof.
  induction l as [|x l IH]; intros Hf; [done|].
  cbn. rewrite (Hf x) by left. cbn.
  rewrite IH; [done|]. intros y Hy. apply Hf. by right.
Qed.

(** ** The arc sampler *)

Section Arc.
Context {F : Type} `{!Float F} `{!Math F}.
Variables (center : point F) (radius start_angle end_angle : F).
Variable transformer_to_geo : F → F → point F.

Lemma arc_point_sample (n k : nat) :
  n ≠ 0 →
  arc_point radius start_angle end_angle transformer_to_geo n k
  = Ok (sample radius start_angle end_angle transformer_to_geo n k).
Proof. intros Hn. destruct n as [|n]; [done|]. reflexivity. Qed.

Lemma calculate_arc_points_Ok (n : nat) :
  n ≠ 0 →
  calculate_arc_points center radius start_angle end_angle transformer_to_geo n
  = Ok (sample radius start_angle end_angle transformer_to_geo n <$> seq 0 (n + 1)).
Proof.
  intros Hn. unfold calculate_arc_points.
  apply mapM_Ok. intros k _. by apply arc_point_sample.
Qed.

(** C2, amended: for a point count n >= 1 the sampler returns n + 1
    points, in order, and point k is the image under the transformer
    of (radius * sin theta_k, radius * cos theta_k), where theta_k =
    radians (start + (end - start) * k / n). *)
Theorem arc_sampler_points (n : nat) :
  n ≥ 1 →
  ∃ points,
    calculate_arc_points center radius start_angle end_angle transformer_to_geo n
    = Ok points
    ∧ length points = n + 1
    ∧ ∀ k, k ≤ n →
        points !! k
        = Some (transformer_to_geo
                  (fmul radius (sin (theta start_angle end_angle n k)))
                  (fmul radius (cos (theta start_angle end_angle n k)))).
Proof.
  intros Hn.
  exists (sample radius start_angle end_angle transformer_to_geo n <$> seq 0 (n + 1)).
  split_and!.
  - apply calculate_arc_points_Ok. lia.
  - by rewrite length_fmap, length_seq.
  - intros k Hk. rewrite list_lookup_fmap, lookup_seq_lt by lia. done.
Qed.

(** A point count of zero divides by zero in the first turn of the loop. *)
Lemma calculate_arc_points_zero :
  calculate_arc_points center radius start_angle end_angle transformer_to_geo 0
  = Raise (ZeroDivisionError "float division by zero").
Proof. reflexivity. Qed.

End Arc.

(** ** The angular ranges of the sectors *)

Lemma INR_360 : INR 360 = 360%R.
Proof. rewrite INR_IZR_INZ. reflexivity. Qed.

Lemma segment_angles_exact (N i : nat) :
  N ≠ 0 →
  segment_angles (F:=R) N i
  = Ok ((INR i * (360 / INR N))%R, (INR i * (360 / INR N) + 360 / INR N)%R).
Proof.
  intros HN. destruct N as [|N]; [done|].
  unfold segment_angles, int_div. cbn [mbind result_bind of_int fmul fadd fdiv exact].
  by rewrite INR_360.
Qed.




(** ** Closing and rounding a shell *)

Lemma head_fmap {A B} (f : A → B) (l : list A) : head (f <$> l) = f <$> head l.
Proof. by destruct l. Qed.

Lemma last_app_rev_cons {A} (l l' : list A) (x : A) :
  last (l ++ rev (x :: l')) = Some x.
Proof. cbn [rev]. by rewrite app_assoc, last_snoc. Qed.

Section Rings.
Context {F : Type} `{!Geo F}.

Lemma close_ring_cases (l : list (point F)) :
  close_ring l = l ∨ ∃ p, head l = Some p ∧ close_ring l = l ++ [p].
Proof.
  unfold close_ring. destruct l as [|p l]; [by left|].
  destruct (last (p :: l)) as [q|]; [|by left].
  destruct (same_point p q); [by left|]. right. by exists p.
Qed.

(** A shell that ends where it starts is kept as it is. *)
Lemma close_ring_shut (p q : point F) (l : list (point F)) :
  head l = Some p → last l = Some q → same_point p q = true → close_ring l = l.
Proof.
  intros Hp Hq Hpq. unfold close_ring. destruct l as [|p' l]; [done|].
  injection Hp as ->. by rewrite Hq, Hpq.
Qed.

(** A shell that does not gets its first point appended. *)
Lemma close_ring_open (p q : point F) (l : list (point F)) :
  head l = Some p → last l = Some q → same_point p q = false →
  close_ring l = l ++ [p].
Proof.
  intros Hp Hq Hpq. unfold close_ring. destruct l as [|p' l]; [done|].
  injection Hp as ->. by rewrite Hq, Hpq.
Qed.

Lemma close_ring_closed (c : point F) (l : list (point F)) :
  same_point c c = true → close_ring ([c] ++ l ++ [c]) = [c] ++ l ++ [c].
Proof.
  intros Hc. apply (close_ring_shut c c); [done| |done].
  by rewrite app_assoc, last_snoc.
Qed.

Lemma close_ring_lookup (l : list (point F)) (k : nat) :
  k < length l → close_ring l !! k = l !! k.
Proof.
  intros Hk. destruct (close_ring_cases l) as [-> | (p & _ & ->)]; [done|].
  by rewrite lookup_app_l.
Qed.


Lemma close_ring_head (l : list (point F)) : head (close_ring l) = head l.
Proof.
  destruct (close_ring_cases l) as [-> | (q & Hq & ->)]; [done|].
  by destruct l.
Qed.


End Rings.

(** ** The sector assembler *)

Section Assembler.
Context {F : Type} `{!Float F} `{!Math F} `{!Geo F}.
Variables (risks : gmap string (gmap string value)) (center : point F).
Variables (radius_inner radius_outer : F) (transformer_to_geo : F → F → point F).

Lemma segment_angles_Ok (N i : nat) :
  N ≠ 0 → is_Ok (segment_angles (F:=F) N i).
Proof. intros HN. destruct N as [|N]; [done|]. eexists. reflexivity. Qed.

(** The default point count never divides by zero. *)
Lemma calculate_arc_points_30 (radius s e : F) :
  calculate_arc_points center radius s e transformer_to_geo 30
  = Ok (sample radius s e transformer_to_geo 30 <$> seq 0 31).
Proof. by rewrite calculate_arc_points_Ok. Qed.

Lemma inner_sector_inv (s e : F) (d : string) (arc : list (point F)) (f : Feature F) :
  inner_sector risks center radius_inner transformer_to_geo s e d = Ok (arc, f) →
  calculate_arc_points center radius_inner s e transformer_to_geo 30 = Ok arc
  ∧ geometry f = round_point <$> close_ring ([center] ++ arc ++ [center])
  ∧ Area (props f) = d +:+ "_R1"
  ∧ ∃ tier, risks !! "R1" = Some tier ∧ tier !! d = Some (Risk (props f)).
Proof.
  unfold inner_sector. intros H.
  bind_inv H. bind_inv H. bind_inv Ha0.
  apply getitem_Ok in Ha1, Ha0. injection H as <- <-.
  split_and!; [done..|]. by exists a1.
Qed.

Lemma outer_sector_inv (s e : F) (d : string) (arc : list (point F)) (f : Feature F) :
  outer_sector risks center radius_outer transformer_to_geo s e d arc = Ok f →
  ∃ outer_arc,
    calculate_arc_points center radius_outer s e transformer_to_geo 30 = Ok outer_arc
    ∧ geometry f = round_point <$> close_ring (outer_arc ++ rev arc)
    ∧ Area (props f) = d +:+ "_R2"
    ∧ ∃ tier, risks !! "R2" = Some tier ∧ tier !! d = Some (Risk (props f)).
Proof.
  unfold outer_sector. intros H.
  bind_inv H. bind_inv H. bind_inv Ha0.
  apply getitem_Ok in Ha1, Ha0. injection H as <-.
  exists a. split_and!; [done..|]. by exists a1.
Qed.

Lemma sector_inv (N i : nat) (d : string) (fi fo : Feature F) :
  sector N risks center radius_inner radius_outer transformer_to_geo i d = Ok (fi, fo) →
  ∃ s e arc,
    segment_angles N i = Ok (s, e)
    ∧ inner_sector risks center radius_inner transformer_to_geo s e d = Ok (arc, fi)
    ∧ outer_sector risks center radius_outer transformer_to_geo s e d arc = Ok fo.
Proof.
  unfold sector. intros H.
  bind_inv H. destruct a as [s e].
  bind_inv H. destruct a as [arc fi'].
  bind_inv H. injection H as <- <-.
  by exists s, e, arc.
Qed.

Lemma sector_complete (N i : nat) (d : string) :
  N ≠ 0 → complete risks d →
  is_Ok (sector N risks center radius_inner radius_outer transformer_to_geo i d).
Proof.
  intros HN (t1 & t2 & v1 & v2 & Ht1 & Hv1 & Ht2 & Hv2).
  destruct (segment_angles_Ok N i HN) as [[s e] Hse].
  unfold sector. rewrite Hse. cbn [mbind result_bind].
  unfold inner_sector. rewrite calculate_arc_points_30.
  unfold getitem at 1 2. rewrite Ht1. cbn [mbind result_bind].
  rewrite Hv1. cbn [mbind result_bind].
  unfold outer_sector. rewrite calculate_arc_points_30.
  unfold getitem. rewrite Ht2. cbn [mbind result_bind].
  rewrite Hv2. cbn [mbind result_bind].
  by eexists.
Qed.

(** The loop appends one feature per direction to each list, the one
    [sector] builds for the direction at its index. *)
Lemma sectors_from_inv (N : nat) (ds : list string) :
  ∀ i acc_i acc_o fi fo,
    sectors_from N risks center radius_inner radius_outer transformer_to_geo
      i ds acc_i acc_o = Ok (fi, fo) →
    ∃ li lo,
      fi = acc_i ++ li ∧ fo = acc_o ++ lo
      ∧ length li = length ds ∧ length lo = length ds
      ∧ ∀ k d, ds !! k = Some d →
          ∃ a b, li !! k = Some a ∧ lo !! k = Some b
                 ∧ sector N risks center radius_inner radius_outer
                     transformer_to_geo (i + k) d = Ok (a, b).
Proof.
  induction ds as [|d ds IH]; intros i acc_i acc_o fi fo H.
  - injection H as <- <-. exists [], []. rewrite !app_nil_r.
    split_and!; [done..|]. intros k d Hk. by rewrite lookup_nil in Hk.
  - cbn [sectors_from] in H. bind_inv H. destruct a as [a b].
    apply IH in H as (li & lo & -> & -> & Hli & Hlo & Hk).
    exists (a :: li), (b :: lo). rewrite <- !app_assoc.
    split_and!; [done | done | by cbn; f_equal | by cbn; f_equal |].
    intros [|k] d' Hd'.
    + injection Hd' as <-. exists a, b. by rewrite Nat.add_0_r.
    + cbn in Hd'. apply Hk in Hd' as (a' & b' & ? & ? & Hs).
      exists a', b'. split_and!; [done..|].
      by replace (i + S k) with (S i + k) by lia.
Qed.

Lemma sectors_from_total (N : nat) (ds : list string) :
  ∀ i acc_i acc_o,
    (∀ k d, ds !! k = Some d →
       is_Ok (sector N risks center radius_inner radius_outer
                transformer_to_geo (i + k) d)) →
    is_Ok (sectors_from N risks center radius_inner radius_outer transformer_to_geo
             i ds acc_i acc_o).
Proof.
  induction ds as [|d ds IH]; intros i acc_i acc_o Hall.
  - by eexists.
  - cbn [sectors_from].
    destruct (Hall 0 d eq_refl) as [[a b] Hab]. rewrite Nat.add_0_r in Hab.
    rewrite Hab. cbn. apply IH. intros k d' Hd'.
    replace (S i + k) with (i + S k) by lia. by apply Hall.
Qed.

(** The loop stops at the first direction whose turn raises. *)
Lemma sectors_from_first_error (N : nat) (pre : list string) :
  ∀ i acc_i acc_o d post e,
    (∀ k x, pre !! k = Some x →
       is_Ok (sector N risks center radius_inner radius_outer
                transformer_to_geo (i + k) x)) →
    sector N risks center radius_inner radius_outer transformer_to_geo
      (i + length pre) d = Raise e →
    sectors_from N risks center radius_inner radius_outer transformer_to_geo
      i (pre ++ d :: post) acc_i acc_o = Raise e.
Proof.
  induction pre as [|x pre IH]; intros i acc_i acc_o d post e Hpre Hd.
  - cbn in *. rewrite Nat.add_0_r in Hd. by rewrite Hd.
  - cbn [app sectors_from].
    destruct (Hpre 0 x eq_refl) as [[a b] Hab]. rewrite Nat.add_0_r in Hab.
    rewrite Hab. cbn. apply IH.
    + intros k y Hy. replace (S i + k) with (i + S k) by lia. by apply Hpre.
    + by replace (S i + length pre) with (i + length (x :: pre)) by (cbn; lia).
Qed.

End Assembler.

Section Chart.
Context {F : Type} `{!Float F} `{!Math F} `{!Geo F}.
Variables (directions : list string) (risks : gmap string (gmap string value)).
Variables (center : point F) (radius_inner radius_outer : F).
Variable transformer_to_geo : F → F → point F.

Lemma generate_pie_chart_inv (inner outer : FeatureCollection F) :
  generate_pie_chart directions risks center radius_inner radius_outer
    transformer_to_geo = Ok (inner, outer) →
  length (features inner) = length directions
  ∧ length (features outer) = length directions
  ∧ ∀ i d, directions !! i = Some d →
      ∃ fi fo, features inner !! i = Some fi ∧ features outer !! i = Some fo
               ∧ sector (length directions) risks center radius_inner radius_outer
                   transformer_to_geo i d = Ok (fi, fo).
Proof.
  unfold generate_pie_chart. intros H. bind_inv H. destruct a as [fi fo].
  injection H as <- <-. cbn [features].
  apply sectors_from_inv in Ha as (li & lo & -> & -> & Hli & Hlo & Hk).
  cbn [app]. by split_and!.
Qed.

Lemma generate_pie_chart_total :
  (∀ d, d ∈ directions → complete risks d) →
  is_Ok (generate_pie_chart directions risks center radius_inner radius_outer
           transformer_to_geo).
Proof.
  intros Hall. unfold generate_pie_chart.
  destruct (sectors_from_total risks center radius_inner radius_outer
              transformer_to_geo (length directions) directions 0 [] [])
    as [[fi fo] Hs].
  - intros k d Hd. apply sector_complete.
    + apply lookup_lt_Some in Hd. lia.
    + apply Hall. by eapply list_elem_of_lookup_2.
  - rewrite Hs. by eexists.
Qed.

(** The ring of the i-th inner feature: the closed shell of Center,
    the inner arc and Center, rounded. *)
Lemma inner_ring_shape :
  (∀ d, d ∈ directions → complete risks d) →
  ∃ inner outer,
    generate_pie_chart directions risks center radius_inner radius_outer
      transformer_to_geo = Ok (inner, outer)
    ∧ ∀ i d, directions !! i = Some d →
        ∃ f start_angle end_angle arc,
          features inner !! i = Some f
          ∧ segment_angles (length directions) i = Ok (start_angle, end_angle)
          ∧ calculate_arc_points center radius_inner start_angle end_angle
              transformer_to_geo 30 = Ok arc
          ∧ geometry f = round_point <$> close_ring ([center] ++ arc ++ [center]).
Proof.
  intros Hall. destruct (generate_pie_chart_total Hall) as [[inner outer] Hgen].
  exists inner, outer. split; [done|].
  intros i d Hd.
  apply generate_pie_chart_inv in Hgen as (_ & _ & Hk).
  apply Hk in Hd as (fi & fo & Hfi & _ & Hs).
  apply sector_inv in Hs as (s & e & arc & Hse & Hin & _).
  apply inner_sector_inv in Hin as (Harc & Hgeo & _).
  by exists fi, s, e, arc.
Qed.

(** C4, amended: when every direction has its risks and the
    coordinates of Center compare equal to themselves, the chart is
    built, and the shell of the inner polygon of the i-th direction is
    Center, then the arc on the inner radius over the direction's
    angular range, then Center again. The ring stored in the feature
    is that shell with every coordinate rounded to six decimals: it
    starts and ends at the rounded Center and has it among its
    vertices; it starts and ends at Center itself when rounding leaves
    Center as it is. *)
Theorem inner_ring :
  (∀ d, d ∈ directions → complete risks d) →
  same_point center center = true →
  ∃ inner outer,
    generate_pie_chart directions risks center radius_inner radius_outer
      transformer_to_geo = Ok (inner, outer)
    ∧ ∀ i d, directions !! i = Some d →
        ∃ f start_angle end_angle arc,
          features inner !! i = Some f
          ∧ segment_angles (length directions) i = Ok (start_angle, end_angle)
          ∧ calculate_arc_points center radius_inner start_angle end_angle
              transformer_to_geo 30 = Ok arc
          ∧ mapping (shapely_Polygon ([center] ++ arc ++ [center]))
            = [center] ++ arc ++ [center]
          ∧ geometry f = round_point <$> ([center] ++ arc ++ [center])
          ∧ head (geometry f) = Some (round_point center)
          ∧ last (geometry f) = Some (round_point center)
          ∧ round_point center ∈ geometry f
          ∧ (round_point center = center →
             head (geometry f) = Some center ∧ last (geometry f) = Some center
             ∧ center ∈ geometry f).
Proof.
  intros Hall Hc. destruct (inner_ring_shape Hall) as (inner & outer & Hgen & Hk).
  exists inner, outer. split; [done|].
  intros i d Hd. apply Hk in Hd as (f & s & e & arc & Hf & Hse & Harc & Hgeo).
  rewrite close_ring_closed in Hgeo by done.
  assert (last (geometry f) = Some (round_point center)) as Hlast.
  { by rewrite Hgeo, fmap_last, app_assoc, last_snoc. }
  exists f, s, e, arc. split_and!; [done | done | done | | done | | done | | ].
  - unfold mapping, shapely_Polygon. cbn [exterior]. by apply close_ring_closed.
  - by rewrite Hgeo.
  - rewrite Hgeo. by left.
  - intros Hr. rewrite Hlast, Hgeo. cbn. rewrite Hr. split_and!; [done..|]. by left.
Qed.



End Chart.



(** ** Splitting strings *)

Lemma append_nil (s : string) : "" +:+ s = s.
Proof. reflexivity. Qed.

Lemma append_cons (c : ascii) (s t : string) : String c s +:+ t = String c (s +:+ t).
Proof. reflexivity. Qed.

Lemma length_append (s t : string) :
  String.length (s +:+ t) = String.length s + String.length t.
Proof. induction s as [|c s IH]; [done|]. rewrite append_cons. cbn. by rewrite IH. Qed.

Lemma prefix_append (sep s : string) :
  String.prefix sep s = true → ∃ rest, s = sep +:+ rest.
Proof.
  revert s. induction sep as [|c sep IH]; intros s H.
  - by exists s.
  - destruct s as [|c' s]; [discriminate|]. cbn in H.
    destruct (Ascii.ascii_dec c c') as [->|]; [|discriminate].
    destruct (IH s H) as [rest ->]. by exists rest.
Qed.

Lemma prefix_of_append (sep s : string) : String.prefix sep (sep +:+ s) = true.
Proof.
  induction sep as [|c sep IH].
  - rewrite append_nil. by destruct s.
  - rewrite append_cons. cbn. by destruct (Ascii.ascii_dec c c).
Qed.

Lemma split_from_skip (sep u s : string) :
  split_from sep (String.length u) (u +:+ s) = split_from sep 0 s.
Proof.
  induction u as [|c u IH]; [done|].
  rewrite append_cons. cbn [String.length split_from]. done.
Qed.

(** The split starts with an empty piece when the string starts with the
    separator. *)
Lemma split_at_separator (c : ascii) (sep s : string) :
  split (String c sep +:+ s) (String c sep) = EmptyString :: split s (String c sep).
Proof.
  unfold split. rewrite append_cons. cbn [split_from].
  rewrite <- append_cons, prefix_of_append. f_equal.
  replace (String.length (String c sep) - 1) with (String.length sep)
    by (cbn [String.length]; lia).
  apply split_from_skip.
Qed.

Lemma split_nonempty (sep : string) (skip : nat) (s : string) :
  split_from sep skip s ≠ [].
Proof.
  revert skip. induction s as [|c s IH]; intros skip; [done|].
  cbn [split_from]. destruct skip; [|apply IH].
  destruct (String.prefix sep (String c s)); [done|].
  by destruct (split_from sep 0 s).
Qed.

Lemma join_cons (sep x y : string) (l : list string) :
  join sep (x :: y :: l) = x +:+ sep +:+ join sep (y :: l).
Proof. reflexivity. Qed.

(** Joining the pieces with the separator gives the string back. *)
Lemma join_split (sep s : string) :
  sep ≠ EmptyString → join sep (split s sep) = s.
Proof.
  intros Hsep. destruct sep as [|c0 sep]; [done|]. clear Hsep.
  remember (String.length s) as n eqn:Hn.
  revert s Hn. induction n as [n IH] using lt_wf_ind. intros s Hn.
  destruct s as [|c s]; [done|].
  destruct (String.prefix (String c0 sep) (String c s)) eqn:Hp.
  - apply prefix_append in Hp as [rest Hrest]. rewrite Hrest.
    rewrite split_at_separator.
    assert (join (String c0 sep) (split rest (String c0 sep)) = rest) as Hj.
    { apply (IH (String.length rest)); [|done].
      rewrite Hn, Hrest, length_append. cbn [String.length]. lia. }
    destruct (split rest (String c0 sep)) as [|p ps] eqn:Hs.
    { by apply split_nonempty in Hs. }
    by rewrite join_cons, Hj, append_nil.
  - unfold split in *. cbn [split_from]. rewrite Hp.
    assert (join (String c0 sep) (split_from (String c0 sep) 0 s) = s) as Hj.
    { apply (IH (String.length s)); [|done]. rewrite Hn. cbn [String.length]. lia. }
    destruct (split_from (String c0 sep) 0 s) as [|p ps] eqn:Hs.
    { by apply split_nonempty in Hs. }
    destruct ps as [|p' ps].
    + cbn [join] in *. by rewrite Hj.
    + rewrite join_cons in Hj |- *. by rewrite append_cons, Hj.
Qed.

Lemma split_two (s sep a b : string) :
  sep ≠ EmptyString → split s sep = [a; b] → s = a +:+ sep +:+ b.
Proof. intros Hsep Hs. rewrite <- (join_split sep s Hsep), Hs. done. Qed.

(** A string written around a separator splits into two pieces at least. *)
Lemma split_around (sep d t : string) :
  sep ≠ EmptyString → 2 ≤ length (split (d +:+ sep +:+ t) sep).
Proof.
  intros Hsep. destruct sep as [|c0 sep]; [done|]. clear Hsep.
  induction d as [|c d IH].
  - rewrite append_nil, split_at_separator. cbn [length].
    pose proof (split_nonempty (String c0 sep) 0 t) as Hne.
    unfold split. destruct (split_from (String c0 sep) 0 t); [done|]. cbn [length]. lia.
  - rewrite append_cons. unfold split in *. cbn [split_from].
    destruct (String.prefix (String c0 sep) (String c (d +:+ String c0 sep +:+ t))).
    + pose proof (split_nonempty (String c0 sep) (String.length (String c0 sep) - 1)
                    (d +:+ String c0 sep +:+ t)) as Hne.
      destruct (split_from (String c0 sep) (String.length (String c0 sep) - 1)
                  (d +:+ String c0 sep +:+ t)); [done|].
      cbn [length]. lia.
    + destruct (split_from (String c0 sep) 0 (d +:+ String c0 sep +:+ t)); [cbn in IH; lia|].
      exact IH.
Qed.

(** A computable test for an Area that does not decompose. *)
Lemma decomposes_splits (row : gmap string value) :
  decomposes row → ∃ area, row !! "Area" = Some (PyStr area) ∧ 2 ≤ length (split area "_R").
Proof.
  intros (d & t & Harea & _). eexists. split; [exact Harea|]. by apply split_around.
Qed.

(** ** The table loader *)

Section Loader.
Context {F : Type} `{!Float F}.

Lemma load_row_site (st : loader F) (row : gmap string value) :
  is_site row →
  load_row st row
  = (c ← site_center row;
     Ok {| directions := directions st; risks := risks st; center := Some c |}).
Proof.
  intros Hs. unfold load_row, site_center.
  assert (getitem row "Area" = Ok (PyStr "Site")) as -> by (by apply getitem_Ok).
  cbn [mbind result_bind]. rewrite decide_True by done.
  destruct (getitem row "Lon_NO" ≫= to_float) as [lon|e]; [|done].
  cbn [mbind result_bind].
  by destruct (getitem row "Lat_NO" ≫= to_float) as [lat|e].
Qed.

(** What a row that is not the Site row must be for its turn not to
    raise, and what the turn does then. *)
Lemma load_row_data_inv (st st' : loader F) (row : gmap string value) :
  ¬ is_site row → load_row st row = Ok st' →
  ∃ area direction radius risk tier,
    row !! "Area" = Some (PyStr area)
    ∧ split area "_R" = [direction; radius]
    ∧ row !! "Risk" = Some risk
    ∧ risks st !! ("R" +:+ radius) = Some tier
    ∧ st' = {| directions :=
                 if decide (direction ∈ directions st) then directions st
                 else directions st ++ [direction];
               risks := <["R" +:+ radius := <[direction := risk]> tier]> (risks st);
               center := center st |}.
Proof.
  unfold is_site, load_row. intros Hsite H.
  bind_split H as v Hv. apply getitem_Ok in Hv.
  destruct (decide (v = PyStr "Site")) as [->|Hv']; [done|].
  bind_split H as parts Hparts.
  destruct v as [|area]; [discriminate|]. injection Hparts as <-.
  bind_split H as dr Hdr. destruct dr as [direction radius].
  bind_split H as risk Hrisk. apply getitem_Ok in Hrisk.
  bind_split H as tier Htier. apply getitem_Ok in Htier. injection H as <-.
  exists area, direction, radius, risk, tier. split_and!; [done| |done..].
  unfold unpack2 in Hdr.
  destruct (split area "_R") as [|x [|y [|z l]]]; try discriminate.
  by injection Hdr as -> ->.
Qed.

Lemma loader_init_inv : loader_inv (loader_init (F:=F)).
Proof.
  split; cbn.
  - intros key. split.
    + intros [t Ht]. apply lookup_insert_Some in Ht as [[<- _]|[_ Ht]]; [by left|].
      apply lookup_singleton_Some in Ht as [<- _]. by right.
    + intros [-> | ->]; by eexists.
  - constructor.
  - intros key tier d Hkey [v Hv].
    apply lookup_insert_Some in Hkey as [[_ <-]|[_ Hkey]]; [done|].
    apply lookup_singleton_Some in Hkey as [_ <-]. done.
Qed.

Lemma load_row_inv (st st' : loader F) (row : gmap string value) :
  loader_inv st → load_row st row = Ok st' → loader_inv st'.
Proof.
  intros [Ht Hn Hl] H. destruct (decide (is_site row)) as [Hs|Hs].
  - rewrite load_row_site in H by done. bind_inv H. injection H as <-. by split.
  - apply load_row_data_inv in H
      as (area & d & radius & risk & tier & _ & _ & _ & Htier & ->); [|done].
    split; cbn.
    + intros key. rewrite <- Ht. split.
      * intros [t Hk]. apply lookup_insert_Some in Hk as [[<- _]|[_ Hk]]; by eexists.
      * intros [t Hk]. destruct (decide ("R" +:+ radius = key)) as [<-|Hne].
        -- rewrite lookup_insert_eq. by eexists.
        -- rewrite lookup_insert_ne by done. by eexists.
    + case_decide; [done|]. apply NoDup_app. split_and!; [done| |apply NoDup_singleton].
      intros x Hx Hx'. apply list_elem_of_singleton in Hx' as ->. done.
    + intros key tier' d' Hkey [v Hv].
      assert (d' = d ∨ d' ∈ directions st) as [->|Hd'].
      { apply lookup_insert_Some in Hkey as [[<- <-]|[_ Hkey]].
        - apply lookup_insert_Some in Hv as [[<- _]|[_ Hv]]; [by left|].
          right. eapply Hl; [exact Htier|by eexists].
        - right. eapply Hl; [exact Hkey|by eexists]. }
      * case_decide; [done|]. apply elem_of_app. right. by left.
      * case_decide; [done|]. apply elem_of_app. by left.
Qed.

Lemma load_rows_inv (rows : list (gmap string value)) :
  ∀ st st' : loader F, loader_inv st → load_rows st rows = Ok st' → loader_inv st'.
Proof.
  induction rows as [|row rows IH]; intros st st' Hinv H.
  - by injection H as <-.
  - cbn [load_rows] in H. bind_inv H. eauto using load_row_inv.
Qed.

Lemma load_rows_app (rows1 rows2 : list (gmap string value)) (st : loader F) :
  load_rows st (rows1 ++ rows2) = (st' ← load_rows st rows1; load_rows st' rows2).
Proof.
  revert st. induction rows1 as [|row rows1 IH]; intros st; [done|].
  cbn [app load_rows]. destruct (load_row st row) as [st'|e]; [|done].
  cbn [mbind result_bind]. apply IH.
Qed.

End Loader.

(** The key of a row and the risk recorded under a key. *)

Section LoaderKeys.
Context {F : Type} `{!Float F}.
Implicit Types (st : loader F) (row : gmap string value) (rows : list (gmap string value)).

Lemma tier_key_inj (t1 t2 : string) : "R" +:+ t1 = "R" +:+ t2 → t1 = t2.
Proof. rewrite !append_cons, !append_nil. by intros [= ->]. Qed.

Lemma row_key_site row : is_site row → row_key row = None.
Proof. unfold is_site, row_key. intros ->. by rewrite decide_True. Qed.

Lemma row_key_Some row d t :
  row_key row = Some (d, t) ↔
  ∃ area, row !! "Area" = Some (PyStr area) ∧ area ≠ "Site" ∧ split area "_R" = [d; t].
Proof.
  unfold row_key. split.
  - destruct (row !! "Area") as [[|area]|]; try discriminate.
    destruct (decide (area = "Site")); [discriminate|].
    destruct (split area "_R") as [|x [|y [|z l]]] eqn:Hs; try discriminate.
    intros [= -> ->]. by exists area.
  - intros (area & -> & Hne & Hs). rewrite decide_False by done. by rewrite Hs.
Qed.

(** What a turn of the loop on a row other than the Site row does, in
    terms of the key of the row. *)
Lemma load_row_key st st' row :
  ¬ is_site row → load_row st row = Ok st' →
  ∃ d t risk tier,
    row_key row = Some (d, t) ∧ row !! "Risk" = Some risk
    ∧ risks st !! ("R" +:+ t) = Some tier
    ∧ st' = {| directions :=
                 if decide (d ∈ directions st) then directions st
                 else directions st ++ [d];
               risks := <["R" +:+ t := <[d := risk]> tier]> (risks st);
               center := center st |}.
Proof.
  intros Hs H.
  apply load_row_data_inv in H as (area & d & t & risk & tier & Ha & Hsp & Hr & Ht & ->);
    [|done].
  exists d, t, risk, tier. split_and!; [|done..].
  apply row_key_Some. exists area. split_and!; [done| |done].
  intros ->. by apply Hs.
Qed.

Lemma lookup_risk_init d t : lookup_risk (risks (loader_init (F:=F))) d t = None.
Proof.
  unfold lookup_risk. cbn [risks loader_init].
  destruct (({[ "R1" := ∅; "R2" := ∅ ]} : gmap string (gmap string value))
              !! ("R" +:+ t)) as [tier|] eqn:H; [|done].
  apply lookup_insert_Some in H as [[_ <-]|[_ H]]; [done|].
  apply lookup_singleton_Some in H as [_ <-]. done.
Qed.

(** A turn of the loop sets the risk of the key of its row and leaves
    every other risk as it was. *)
Lemma lookup_risk_step st st' row d t :
  load_row st row = Ok st' →
  lookup_risk (risks st') d t
  = if decide (row_key row = Some (d, t)) then row !! "Risk"
    else lookup_risk (risks st) d t.
Proof.
  intros H. destruct (decide (is_site row)) as [Hs|Hs].
  - rewrite row_key_site by done. rewrite decide_False by done.
    rewrite load_row_site in H by done. bind_split H as c Hc. by injection H as <-.
  - apply load_row_key in H as (d0 & t0 & risk & tier & Hk & Hr & Ht & ->); [|done].
    rewrite Hk. unfold lookup_risk. cbn [risks].
    destruct (decide (Some (d0, t0) = Some (d, t))) as [[= -> ->]|Hne].
    + rewrite lookup_insert_eq. cbn. by rewrite lookup_insert_eq.
    + destruct (decide (t0 = t)) as [->|Ht'].
      * rewrite lookup_insert_eq, Ht. cbn.
        rewrite lookup_insert_ne; [done|]. intros ->. by apply Hne.
      * rewrite lookup_insert_ne; [done|]. intros Heq. by apply Ht', tier_key_inj.
Qed.

End LoaderKeys.

Section LoaderClaims.
Context {F : Type} `{!Float F} `{!Math F} `{!Geo F}.
Implicit Types (st : loader F) (row : gmap string value) (rows : list (gmap string value)).

(** Rows other than the Site row leave the centre alone. *)
Lemma load_row_keeps_center st st' row :
  ¬ is_site row → load_row st row = Ok st' → center st' = center st.
Proof.
  intros Hs H.
  apply load_row_data_inv in H as (? & ? & ? & ? & ? & _ & _ & _ & _ & ->); done.
Qed.

Lemma load_rows_keep_center rows :
  ∀ st st', Forall (fun row => ¬ is_site row) rows →
            load_rows st rows = Ok st' → center st' = center st.
Proof.
  induction rows as [|row rows IH]; intros st st' Hall H.
  - by injection H as <-.
  - apply Forall_cons in Hall as [Hrow Hall].
    cbn [load_rows] in H. bind_split H as st1 Hst1.
    rewrite (IH _ _ Hall H). by eapply load_row_keeps_center.
Qed.

(** The centre the loop ends with is the one it started with, when no
    row is a Site row, and otherwise the one of the last Site row. *)
Lemma load_rows_last_site rows :
  ∀ st st', load_rows st rows = Ok st' →
    (Forall (fun row => ¬ is_site row) rows ∧ center st' = center st)
    ∨ ∃ pre site post c,
        rows = pre ++ site :: post ∧ is_site site
        ∧ Forall (fun row => ¬ is_site row) post
        ∧ site_center site = Ok c ∧ center st' = Some c.
Proof.
  induction rows as [|row rows IH]; intros st st' H.
  - injection H as <-. by left.
  - cbn [load_rows] in H. bind_split H as st1 Hst1.
    destruct (IH _ _ H) as [[Hall Hc]|(pre & site & post & c & -> & Hs & Hpost & Hsc & Hc)].
    + destruct (decide (is_site row)) as [Hrow|Hrow].
      * right. rewrite load_row_site in Hst1 by done.
        bind_split Hst1 as c Hsc. injection Hst1 as <-.
        exists [], row, rows, c. by split_and!.
      * left. split; [by constructor|].
        rewrite Hc. by eapply load_row_keeps_center.
    + right. exists (row :: pre), site, post, c. by split_and!.
Qed.

(** A turn of the loop looks at the directions and the risks only. *)
Lemma load_row_same_tables st1 st2 row :
  same_tables st1 st2 →
  match load_row st1 row, load_row st2 row with
  | Ok st1', Ok st2' =>
      same_tables st1' st2'
      ∧ (is_site row → center st1' = center st2')
      ∧ (¬ is_site row → center st1' = center st1 ∧ center st2' = center st2)
  | Raise e1, Raise e2 => e1 = e2
  | _, _ => False
  end.
Proof.
  destruct st1 as [d r c1], st2 as [d2 r2 c2]. intros [Hd Hr]. cbn in Hd, Hr. subst d2 r2.
  destruct (decide (is_site row)) as [Hs|Hs].
  - rewrite !load_row_site by done. cbn [directions risks].
    destruct (site_center row) as [c|e]; cbn [mbind result_bind]; [|done].
    by split_and!.
  - unfold load_row. cbn [directions risks center].
    destruct (getitem row "Area") as [area|e] eqn:Harea;
      cbn [mbind result_bind]; [|done].
    apply getitem_Ok in Harea.
    destruct (decide (area = PyStr "Site")) as [->|_]; [done|].
    destruct (value_split area "_R") as [parts|e]; cbn [mbind result_bind]; [|done].
    destruct (unpack2 parts) as [[direction radius]|e]; cbn [mbind result_bind]; [|done].
    destruct (getitem row "Risk") as [risk|e]; cbn [mbind result_bind]; [|done].
    destruct (getitem r ("R" +:+ radius)) as [tier|e]; cbn [mbind result_bind]; [|done].
    by split_and!.
Qed.

Lemma load_rows_same_tables rows :
  ∀ st1 st2, same_tables st1 st2 →
    match load_rows st1 rows, load_rows st2 rows with
    | Ok st1', Ok st2' =>
        same_tables st1' st2'
        ∧ (Exists is_site rows → center st1' = center st2')
        ∧ (Forall (fun row => ¬ is_site row) rows →
           center st1' = center st1 ∧ center st2' = center st2)
    | Raise e1, Raise e2 => e1 = e2
    | _, _ => False
    end.
Proof.
  induction rows as [|row rows IH]; intros st1 st2 Hsame.
  - cbn [load_rows]. split_and!; [done| |done].
    intros H. by apply Exists_nil in H.
  - cbn [load_rows].
    pose proof (load_row_same_tables st1 st2 row Hsame) as Hrow.
    destruct (load_row st1 row) as [st1'|e1], (load_row st2 row) as [st2'|e2];
      cbn [mbind result_bind]; try done.
    destruct Hrow as (Hsame' & Hsite & Hdata).
    pose proof (IH st1' st2' Hsame') as Hrows.
    destruct (load_rows st1' rows) as [st1''|e1], (load_rows st2' rows) as [st2''|e2];
      try done.
    destruct Hrows as (Hsame'' & Hex & Hall). split_and!; [done| |].
    + intros Hsome. destruct (decide (Exists is_site rows)) as [Hin|Hnot].
      * by apply Hex.
      * apply Exists_cons in Hsome as [Hs|?]; [|done].
        apply not_Exists_Forall in Hnot; [|apply _].
        destruct (Hall Hnot) as [-> ->]. by apply Hsite.
    + intros Hnone. apply Forall_cons in Hnone as [Hrow Hnone].
      destruct (Hall Hnone) as [-> ->]. by apply Hdata.
Qed.

Lemma main_load_Raise (projection : F → F → result (F → F → point F)) rows (e : exn) :
  load_csv_data rows = Raise e → main projection rows = Raise e.
Proof. intros H. unfold main. by rewrite H. Qed.

Lemma load_csv_data_Ok rows dirs risks0 c :
  load_csv_data rows = Ok (dirs, risks0, c) ↔
  ∃ st, load_rows loader_init rows = Ok st
        ∧ directions st = dirs ∧ risks st = risks0 ∧ center st = Some c.
Proof.
  unfold load_csv_data. split.
  - intros H. bind_split H as st Hst. exists st.
    destruct (center st) as [c'|]; [|discriminate]. by injection H as <- <- <-.
  - intros (st & -> & <- & <- & Hc). cbn [mbind result_bind]. by rewrite Hc.
Qed.

(** The tier of a loaded risk is 1 or 2. *)
Lemma loaded_tier st (radius : string) :
  loader_inv st → is_Some (risks st !! ("R" +:+ radius)) → radius = "1" ∨ radius = "2".
Proof.
  intros Hinv Hsome. apply (inv_tiers st Hinv) in Hsome.
  rewrite append_cons, append_nil in Hsome.
  destruct Hsome as [[= ->] | [= ->]]; auto.
Qed.

(** A row the loader takes: what its turn of the loop gives. *)
Lemma load_row_accepts st row d t v :
  loader_inv st → row_key row = Some (d, t) → t = "1" ∨ t = "2" →
  row !! "Risk" = Some v →
  ∃ tier,
    risks st !! ("R" +:+ t) = Some tier
    ∧ load_row st row
      = Ok {| directions :=
                if decide (d ∈ directions st) then directions st
                else directions st ++ [d];
              risks := <["R" +:+ t := <[d := v]> tier]> (risks st);
              center := center st |}.
Proof.
  intros Hinv Hk Ht Hr.
  apply row_key_Some in Hk as (area & Ha & Hne & Hsp).
  assert (is_Some (risks st !! ("R" +:+ t))) as [tier Htier].
  { apply (inv_tiers st Hinv). rewrite append_cons, append_nil.
    destruct Ht as [-> | ->]; auto. }
  exists tier. split; [done|].
  unfold load_row.
  rewrite (proj2 (getitem_Ok row "Area" (PyStr area)) Ha). cbn [mbind result_bind].
  rewrite decide_False by (intros [= ->]; done).
  cbn [value_split mbind result_bind]. rewrite Hsp. cbn [unpack2 mbind result_bind].
  rewrite (proj2 (getitem_Ok row "Risk" v) Hr). cbn [mbind result_bind].
  by rewrite (proj2 (getitem_Ok (risks st) ("R" +:+ t) tier) Htier).
Qed.

(** The errors of a turn of the loop on a row other than the Site row,
    in the order the turn meets them. *)
Lemma load_row_data_Raise st row e :
  ¬ is_site row → load_row st row = Raise e →
  (row !! "Area" = None ∧ e = KeyError "Area")
  ∨ (row !! "Area" = Some PyNone
     ∧ e = AttributeError "'NoneType' object has no attribute 'split'")
  ∨ (∃ area, row !! "Area" = Some (PyStr area) ∧ length (split area "_R") ≠ 2
             ∧ ∃ msg, e = ValueError msg)
  ∨ (∃ d t, row_key row = Some (d, t) ∧ row !! "Risk" = None ∧ e = KeyError "Risk")
  ∨ (∃ d t, row_key row = Some (d, t) ∧ is_Some (row !! "Risk")
            ∧ risks st !! ("R" +:+ t) = None ∧ e = KeyError ("R" +:+ t)).
Proof.
  intros Hs. unfold load_row, getitem.
  destruct (row !! "Area") as [[|area]|] eqn:Ha; cbn [mbind result_bind].
  - rewrite decide_False by done. cbn [value_split mbind result_bind].
    intros [= <-]. auto.
  - rewrite decide_False by (intros [= ->]; by apply Hs).
    cbn [value_split mbind result_bind].
    assert (area ≠ "Site") as Hne by (intros ->; by apply Hs).
    destruct (split area "_R") as [|d [|t [|x l]]] eqn:Hsp; cbn [unpack2 mbind result_bind].
    + intros [= <-]. do 2 right. left. exists area. rewrite Hsp. split_and!; [done..|]. by eexists.
    + intros [= <-]. do 2 right. left. exists area. rewrite Hsp. split_and!; [done..|]. by eexists.
    + assert (row_key row = Some (d, t)) as Hk by (apply row_key_Some; by exists area).
      destruct (row !! "Risk") as [risk|] eqn:Hr; cbn [mbind result_bind].
      * destruct (risks st !! ("R" +:+ t)) as [tier|] eqn:Ht; cbn [mbind result_bind];
          [discriminate|].
        intros [= <-]. do 4 right. exists d, t. by split_and!.
      * intros [= <-]. do 3 right. left. by exists d, t.
    + intros [= <-]. do 2 right. left. exists area. rewrite Hsp. split_and!; [done..|]. by eexists.
  - intros [= <-]. auto.
Qed.

(** C6, amended: a row other than the Site row whose Area does not
    read <direction>_R<tier> with tier 1 or 2, or that has no Risk
    field at all, makes the loader raise in the turn of that row,
    whatever follows it: the load and the run end with that error and
    no result. The error is KeyError when the row has no Area field, no
    Risk field, or a tier other than 1 and 2, AttributeError when its
    Area is None, ValueError when its Area does not split at _R into
    exactly two pieces. A row whose Area splits into a direction and a
    tier 1 or 2, and whose Risk field is there, is loaded with the
    value of that field, whatever it is: None and the empty string
    included. *)
Theorem malformed_row_aborts (projection : F → F → result (F → F → point F))
    pre row post st :
  load_rows loader_init pre = Ok st →
  ¬ is_site row →
  (¬ decomposes row ∨ row !! "Risk" = None →
   ∃ e,
     load_row st row = Raise e
     ∧ load_csv_data (pre ++ row :: post) = Raise e
     ∧ main projection (pre ++ row :: post) = Raise e
     ∧ ((row !! "Area" = None ∧ e = KeyError "Area")
        ∨ (row !! "Area" = Some PyNone
           ∧ e = AttributeError "'NoneType' object has no attribute 'split'")
        ∨ (∃ area, row !! "Area" = Some (PyStr area)
                   ∧ length (split area "_R") ≠ 2 ∧ ∃ msg, e = ValueError msg)
        ∨ (∃ d t, row_key row = Some (d, t) ∧ row !! "Risk" = None
                  ∧ e = KeyError "Risk")
        ∨ (∃ d t, row_key row = Some (d, t) ∧ is_Some (row !! "Risk")
                  ∧ t ≠ "1" ∧ t ≠ "2" ∧ e = KeyError ("R" +:+ t))))
  ∧ (∀ d t v,
       row_key row = Some (d, t) → t = "1" ∨ t = "2" → row !! "Risk" = Some v →
       ∃ st',
         load_row st row = Ok st'
         ∧ load_rows loader_init (pre ++ [row]) = Ok st'
         ∧ lookup_risk (risks st') d t = Some v
         ∧ d ∈ directions st'
         ∧ center st' = center st).
Proof.
  intros Hpre Hsite.
  assert (loader_inv st) as Hinv
    by (eapply load_rows_inv; [apply loader_init_inv | exact Hpre]).
  split.
  - intros Hbad. destruct (load_row st row) as [st'|e] eqn:Hrow.
    + exfalso.
      apply load_row_data_inv in Hrow
        as (area & d & radius & risk & tier & Harea & Hsplit & Hrisk & Htier & _);
        [|done].
      destruct Hbad as [Hbad|Hbad]; [|congruence].
      apply Hbad. exists d, radius. split.
      * rewrite Harea. do 2 f_equal. by apply split_two.
      * apply (loaded_tier st); [done | by eexists].
    + exists e. split; [done|].
      assert (load_csv_data (pre ++ row :: post) = Raise e) as Hload.
      { unfold load_csv_data. rewrite load_rows_app, Hpre.
        cbn [mbind result_bind load_rows]. by rewrite Hrow. }
      split; [done|]. split; [by apply main_load_Raise|].
      destruct (load_row_data_Raise st row e Hsite Hrow)
        as [?|[?|[?|[?|(d & t & Hk & Hr & Ht & He)]]]]; auto.
      do 4 right. exists d, t. split_and!; [done | done | | | done].
      * intros ->. destruct (proj2 (inv_tiers st Hinv "R1")) as [? ?]; [by left|].
        rewrite append_cons, append_nil in Ht. congruence.
      * intros ->. destruct (proj2 (inv_tiers st Hinv "R2")) as [? ?]; [by right|].
        rewrite append_cons, append_nil in Ht. congruence.
  - intros d t v Hk Ht Hr.
    destruct (load_row_accepts st row d t v Hinv Hk Ht Hr) as (tier & Htier & Hrow).
    eexists. split; [exact Hrow|]. split_and!.
    + rewrite load_rows_app, Hpre. cbn [mbind result_bind load_rows]. by rewrite Hrow.
    + rewrite (lookup_risk_step _ _ _ d t Hrow). by rewrite decide_True.
    + cbn [directions]. case_decide; [done|]. apply elem_of_app. right. by left.
    + done.
Qed.

(** C7, amended: a table with no Site row makes the loader raise, so
    the run ends there, before any polygon is computed, and nothing is
    written. The error is the loader's own "Center (site row) not
    found" when the loop over the rows ends without error, and the
    error of the loop otherwise. *)
Theorem no_site_row_fails (projection : F → F → result (F → F → point F)) rows :
  Forall (fun row => ¬ is_site row) rows →
  ∃ e,
    load_csv_data rows = Raise e
    ∧ main projection rows = Raise e
    ∧ (is_Ok (load_rows loader_init rows) → e = center_not_found)
    ∧ (∀ e', load_rows loader_init rows = Raise e' → e = e').
Proof.
  intros Hnone.
  destruct (load_rows loader_init rows) as [st|e] eqn:Hrows.
  - exists center_not_found.
    assert (load_csv_data rows = Raise center_not_found) as Hload.
    { unfold load_csv_data. rewrite Hrows. cbn [mbind result_bind].
      by rewrite (load_rows_keep_center rows _ _ Hnone Hrows). }
    split_and!; [done | by apply main_load_Raise | done | discriminate].
  - exists e.
    assert (load_csv_data rows = Raise e) as Hload
      by (unfold load_csv_data; by rewrite Hrows).
    split_and!; [done | by apply main_load_Raise | by intros [? ?] | by intros ? [= <-]].
Qed.

(** Rows that are Site rows add nothing to the directions and risks. *)
Lemma load_rows_without_sites rows :
  ∀ st1 st2 st1', same_tables st1 st2 →
    load_rows st1 rows = Ok st1' →
    ∃ st2', load_rows st2 (filter (fun row => ¬ is_site row) rows) = Ok st2'
            ∧ same_tables st1' st2'.
Proof.
  induction rows as [|row rows IH]; intros st1 st2 st1' Hsame H.
  - injection H as <-. by exists st2.
  - cbn [load_rows] in H. bind_split H as st Hst.
    destruct (decide (is_site row)) as [Hs|Hs].
    + rewrite filter_cons_False by auto.
      rewrite load_row_site in Hst by done.
      bind_split Hst as c Hc. injection Hst as <-.
      eapply IH; [|exact H]. done.
    + rewrite filter_cons_True by done. cbn [load_rows].
      pose proof (load_row_same_tables st1 st2 row Hsame) as Hrow.
      rewrite Hst in Hrow. destruct (load_row st2 row) as [st2'|]; [|done].
      cbn [mbind result_bind]. destruct Hrow as [Hsame' _].
      eapply IH; [exact Hsame' | exact H].
Qed.

(** C9, amended: when the table loads, it has a Site row, the Center
    is (float of Lon_NO, float of Lat_NO) of the last Site row, and the
    directions and risks are those of the table without its Site rows. *)
Theorem site_row_center rows dirs risks0 c :
  load_csv_data rows = Ok (dirs, risks0, c) →
  (∃ pre site post,
     rows = pre ++ site :: post ∧ is_site site
     ∧ Forall (fun row => ¬ is_site row) post
     ∧ (lon ← getitem site "Lon_NO" ≫= to_float;
        lat ← getitem site "Lat_NO" ≫= to_float;
        Ok (lon, lat)) = Ok c)
  ∧ ∃ st, load_rows loader_init (filter (fun row => ¬ is_site row) rows) = Ok st
          ∧ directions st = dirs ∧ risks st = risks0.
Proof.
  intros H. apply load_csv_data_Ok in H as (st & Hst & <- & <- & Hc). split.
  - destruct (load_rows_last_site rows _ _ Hst)
      as [[_ Hc']|(pre & site & post & c' & -> & Hs & Hpost & Hsc & Hc')].
    + rewrite Hc in Hc'. discriminate.
    + exists pre, site, post. split_and!; [done..|].
      change (site_center site = Ok c). congruence.
  - destruct (load_rows_without_sites rows loader_init loader_init st) as (st' & Hst' & Hd & Hr);
      [done | done |].
    exists st'. by split_and!.
Qed.

(** Rows that are each loadable load together. *)
Lemma load_rows_loadable rows :
  ∀ st, loader_inv st → Forall (loadable (F:=F)) rows → is_Ok (load_rows st rows).
Proof.
  induction rows as [|row rows IH]; intros st Hinv Hall; [by eexists|].
  apply Forall_cons in Hall as [Hrow Hall]. cbn [load_rows].
  assert (is_Ok (load_row st row)) as [st' Hst'].
  { destruct Hrow as [[Hs [c Hc]]|[Hs (d & t & Hk & Ht & [v Hv])]].
    - rewrite load_row_site by done. rewrite Hc. by eexists.
    - destruct (load_row_accepts st row d t v Hinv Hk Ht Hv) as (tier & _ & ->).
      by eexists. }
  rewrite Hst'. cbn [mbind result_bind]. apply IH; [|done].
  by eapply load_row_inv.
Qed.

(** C10, amended: several Site rows are not an error of their own.
    When every row of the table is loadable on its own (the
    coordinates of every Site row read as floats, every other row is
    well formed) and there is a Site row, the loader returns, and the
    Center it returns is the coordinates of the last Site row. A Site
    row with readable coordinates that stands before another Site row
    changes nothing in what the loader returns or raises, and whenever
    the loader returns, the Center is the coordinates of the last Site
    row. *)
Theorem last_site_wins :
  (∀ rows,
     Forall (loadable (F:=F)) rows → Exists is_site rows →
     ∃ dirs risks0 c pre site post,
       load_csv_data rows = Ok (dirs, risks0, c)
       ∧ rows = pre ++ site :: post ∧ is_site site
       ∧ Forall (fun row => ¬ is_site row) post
       ∧ site_center site = Ok c)
  ∧ (∀ pre site post c,
       is_site site → site_center site = Ok c → Exists is_site post →
       load_csv_data (pre ++ site :: post) = load_csv_data (pre ++ post))
  ∧ (∀ rows dirs risks0 c,
       load_csv_data rows = Ok (dirs, risks0, c) →
       ∃ pre site post,
         rows = pre ++ site :: post ∧ is_site site
         ∧ Forall (fun row => ¬ is_site row) post
         ∧ site_center site = Ok c).
Proof.
  split_and!.
  - intros rows Hall Hsome.
    destruct (load_rows_loadable rows loader_init loader_init_inv Hall) as [st Hst].
    destruct (load_rows_last_site rows _ _ Hst)
      as [[Hnone _]|(pre & site & post & c & -> & Hs & Hpost & Hsc & Hc)].
    + exfalso. apply Exists_exists in Hsome as (row & Hin & Hrow).
      by eapply Forall_forall in Hnone.
    + exists (directions st), (risks st), c, pre, site, post.
      split_and!; [|done..]. apply load_csv_data_Ok. by exists st.
  - intros pre site post c Hs Hc Hlater.
    unfold load_csv_data. rewrite !load_rows_app.
    destruct (load_rows loader_init pre) as [st|e]; [|done].
    cbn [mbind result_bind load_rows]. rewrite load_row_site by done.
    rewrite Hc. cbn [mbind result_bind].
    set (st0 := {| directions := directions st; risks := risks st; center := Some c |}).
    assert (same_tables st0 st) as Hsame by done.
    pose proof (load_rows_same_tables post st0 st Hsame) as H.
    destruct (load_rows st0 post) as [st1|e1], (load_rows st post) as [st2|e2].
    + destruct H as ([Hd Hr] & Hcenter & _).
      cbn [mbind result_bind]. by rewrite Hd, Hr, (Hcenter Hlater).
    + done.
    + done.
    + by rewrite H.
  - intros rows dirs risks0 c H.
    apply load_csv_data_Ok in H as (st & Hst & _ & _ & Hc).
    destruct (load_rows_last_site rows _ _ Hst)
      as [[_ Hc']|(pre & site & post & c' & -> & Hs & Hpost & Hsc & Hc')].
    + rewrite Hc in Hc'. discriminate.
    + exists pre, site, post. split_and!; [done..|]. congruence.
Qed.

Lemma complete_or_not (risks0 : gmap string (gmap string value)) (d : string) :
  complete risks0 d ∨ ¬ complete risks0 d.
Proof.
  unfold complete.
  destruct (risks0 !! "R1") as [t1|] eqn:H1; [|right; by intros (?&?&?&?&?&?)].
  destruct (risks0 !! "R2") as [t2|] eqn:H2; [|right; by intros (?&?&?&?&?&?&?&?)].
  destruct (t1 !! d) as [v1|] eqn:Hv1;
    [|right; intros (?&?&?&?&?&?&?&?); simplify_eq].
  destruct (t2 !! d) as [v2|] eqn:Hv2;
    [|right; intros (?&?&?&?&?&?&?&?); simplify_eq].
  left. by exists t1, t2, v1, v2.
Qed.

(** The first direction, in order, that lacks a risk in a tier. *)
Lemma first_incomplete (risks0 : gmap string (gmap string value)) (ds : list string) :
  Exists (fun d => ¬ complete risks0 d) ds →
  ∃ pre d0 post,
    ds = pre ++ d0 :: post ∧ Forall (complete risks0) pre ∧ ¬ complete risks0 d0.
Proof.
  induction ds as [|d ds IH]; intros Hex; [by apply Exists_nil in Hex|].
  destruct (complete_or_not risks0 d) as [Hd|Hd].
  - apply Exists_cons in Hex as [?|Hex]; [done|].
    destruct (IH Hex) as (pre & d0 & post & -> & Hpre & Hd0).
    exists (d :: pre), d0, post. split_and!; [done | by constructor | done].
  - exists [], d, ds. by split_and!.
Qed.

(** With both tiers in place, the turn of a direction that lacks a
    risk raises KeyError on that direction: in the inner sector when
    the inner risk is missing, in the outer sector otherwise. *)
Lemma sector_incomplete (risks0 : gmap string (gmap string value)) (c : point F)
    (ri ro : F) (T : F → F → point F) (N i : nat) (d : string) tier1 tier2 :
  N ≠ 0 → risks0 !! "R1" = Some tier1 → risks0 !! "R2" = Some tier2 →
  ¬ complete risks0 d →
  sector N risks0 c ri ro T i d = Raise (KeyError d)
  ∧ (is_Some (tier1 !! d) →
     ∃ s e arc f,
       segment_angles N i = Ok (s, e)
       ∧ inner_sector risks0 c ri T s e d = Ok (arc, f)
       ∧ outer_sector risks0 c ro T s e d arc = Raise (KeyError d)).
Proof.
  intros HN H1 H2 Hd.
  destruct (segment_angles_Ok (F:=F) N i HN) as [[s e] Hse].
  assert (inner_sector risks0 c ri T s e d
          = (risk ← getitem tier1 d;
             Ok (sample ri s e T 30 <$> seq 0 31,
                 geojson_Feature
                   (mapping (shapely_Polygon
                      ([c] ++ (sample ri s e T 30 <$> seq 0 31) ++ [c])))
                   {| Area := d +:+ "_R1"; Risk := risk |}))) as Hinner.
  { unfold inner_sector. rewrite calculate_arc_points_30.
    by rewrite (proj2 (getitem_Ok risks0 "R1" tier1) H1). }
  assert (∀ arc, outer_sector risks0 c ro T s e d arc
                 = (risk ← getitem tier2 d;
                    Ok (geojson_Feature
                          (mapping (shapely_Polygon
                             ((sample ro s e T 30 <$> seq 0 31) ++ rev arc)))
                          {| Area := d +:+ "_R2"; Risk := risk |}))) as Houter.
  { intros arc. unfold outer_sector. rewrite calculate_arc_points_30.
    by rewrite (proj2 (getitem_Ok risks0 "R2" tier2) H2). }
  unfold sector. rewrite Hse. cbn [mbind result_bind]. rewrite Hinner.
  unfold getitem.
  destruct (tier1 !! d) as [v1|] eqn:Hv1; cbn [mbind result_bind].
  - assert (tier2 !! d = None) as Hv2.
    { destruct (tier2 !! d) as [v2|] eqn:Hv2; [|done].
      exfalso. apply Hd. by exists tier1, tier2, v1, v2. }
    rewrite Houter. unfold getitem. rewrite Hv2. cbn [mbind result_bind].
    split; [done|]. intros _.
    eexists s, e, _, _. split_and!; [done | | ].
    + rewrite Hinner. unfold getitem. rewrite Hv1. reflexivity.
    + rewrite Houter. unfold getitem. by rewrite Hv2.
  - split; [done|]. by intros [? ?].
Qed.

(** C8, amended: when the table loads, the projection centred on its
    Center can be built, and a direction has a risk in the inner tier
    and none in the outer tier, the run ends with KeyError during the
    assembly, raised on the first direction, in order, that lacks a
    risk in either tier. That direction is the one in question or one
    before it; when it is the one in question, its inner sector is
    built and the error comes from its outer sector. *)
Theorem missing_outer_risk (projection : F → F → result (F → F → point F))
    rows dirs risks0 c (T : F → F → point F) tier1 tier2 d :
  load_csv_data rows = Ok (dirs, risks0, c) →
  projection c.2 c.1 = Ok T →
  risks0 !! "R1" = Some tier1 → risks0 !! "R2" = Some tier2 →
  is_Some (tier1 !! d) → tier2 !! d = None →
  ∃ pre d0 post,
    dirs = pre ++ d0 :: post
    ∧ Forall (complete risks0) pre
    ∧ ¬ complete risks0 d0
    ∧ main projection rows = Raise (KeyError d0)
    ∧ (d0 = d ∨ d ∈ post)
    ∧ (d0 = d →
       ∃ s e arc f,
         segment_angles (length dirs) (length pre) = Ok (s, e)
         ∧ inner_sector risks0 c (of_int 100) T s e d = Ok (arc, f)
         ∧ outer_sector risks0 c (of_int 200) T s e d arc
           = Raise (KeyError d)).
Proof.
  intros Hload Hproj H1 H2 Hin Hout.
  pose proof Hload as Hload'.
  apply load_csv_data_Ok in Hload' as (st & Hst & <- & <- & Hc).
  assert (loader_inv st) as Hinv
    by (eapply load_rows_inv; [apply loader_init_inv | exact Hst]).
  assert (d ∈ directions st) as Hd by (eapply (inv_listed st Hinv); eassumption).
  assert (¬ complete (risks st) d) as Hbad.
  { intros (t1 & t2 & v1 & v2 & ? & ? & ? & ?). simplify_eq. }
  destruct (first_incomplete (risks st) (directions st))
    as (pre & d0 & post & Hdirs & Hpre & Hd0).
  { apply Exists_exists. by exists d. }
  exists pre, d0, post.
  assert (length (directions st) ≠ 0) as HN.
  { rewrite Hdirs, length_app. cbn. lia. }
  destruct (sector_incomplete (risks st) c (of_int 100) (of_int 200)
              T (length (directions st)) (length pre) d0
              tier1 tier2 HN H1 H2 Hd0) as [Hsector Hinner].
  split_and!; [done..| | |].
  - unfold main. rewrite Hload. cbn [mbind result_bind].
    rewrite Hproj. cbn [mbind result_bind].
    unfold generate_pie_chart. rewrite Hdirs at 2.
    erewrite sectors_from_first_error; [done| |exact Hsector].
    intros k x Hx. apply sector_complete; [done|].
    eapply Forall_forall; [exact Hpre|]. by eapply list_elem_of_lookup_2.
  - rewrite Hdirs in Hd. apply elem_of_app in Hd as [Hd|Hd].
    + exfalso. apply Hbad. by eapply Forall_forall.
    + apply elem_of_cons in Hd as [->|Hd]; auto.
  - intros ->. by apply Hinner.
Qed.

(** C1: when the table loads, the projection centred on its Center is
    built and every one of its N directions has a risk in both tiers,
    the run ends with a collection of 2N features: the inner features
    of the directions, in their order, then their outer features, in
    the same order; no direction is listed twice. *)
Theorem merged_features (projection : F → F → result (F → F → point F))
    rows dirs risks0 c (T : F → F → point F) :
  load_csv_data rows = Ok (dirs, risks0, c) →
  projection c.2 c.1 = Ok T →
  (∀ d, d ∈ dirs → complete risks0 d) →
  ∃ inner outer,
    main projection rows = Ok (Build_FeatureCollection (inner ++ outer))
    ∧ generate_pie_chart dirs risks0 c (of_int 100) (of_int 200) T
      = Ok (Build_FeatureCollection inner, Build_FeatureCollection outer)
    ∧ length inner = length dirs
    ∧ length outer = length dirs
    ∧ length (inner ++ outer) = 2 * length dirs
    ∧ NoDup dirs
    ∧ ∀ i d, dirs !! i = Some d →
        ∃ fi fo tier1 tier2,
          (inner ++ outer) !! i = Some fi
          ∧ (inner ++ outer) !! (length dirs + i) = Some fo
          ∧ inner !! i = Some fi
          ∧ outer !! i = Some fo
          ∧ Area (props fi) = d +:+ "_R1"
          ∧ Area (props fo) = d +:+ "_R2"
          ∧ risks0 !! "R1" = Some tier1 ∧ tier1 !! d = Some (Risk (props fi))
          ∧ risks0 !! "R2" = Some tier2 ∧ tier2 !! d = Some (Risk (props fo)).
Proof.
  intros Hload Hproj Hall.
  destruct (generate_pie_chart_total dirs risks0 c (of_int 100) (of_int 200)
              T Hall) as [[inner outer] Hgen].
  exists (features inner), (features outer).
  pose proof (generate_pie_chart_inv _ _ _ _ _ _ _ _ Hgen) as (Hli & Hlo & Hk).
  split_and!; [| |done|done| | |].
  - unfold main. rewrite Hload. cbn [mbind result_bind].
    rewrite Hproj. cbn [mbind result_bind].
    rewrite Hgen. done.
  - rewrite Hgen. by destruct inner, outer.
  - rewrite length_app. lia.
  - apply load_csv_data_Ok in Hload as (st & Hst & <- & _).
    eapply inv_nodup, load_rows_inv; [apply loader_init_inv | exact Hst].
  - intros i d Hd.
    destruct (Hk i d Hd) as (fi & fo & Hfi & Hfo & Hs).
    apply sector_inv in Hs as (s & e & arc & _ & Hin & Hout).
    apply inner_sector_inv in Hin as (_ & _ & Hai & t1 & Ht1 & Hv1).
    apply outer_sector_inv in Hout as (_ & _ & _ & Hao & t2 & Ht2 & Hv2).
    exists fi, fo, t1, t2. split_and!; [| |done..].
    + rewrite lookup_app_l; [done|]. by eapply lookup_lt_Some.
    + rewrite lookup_app_r by lia. rewrite <- Hli.
      by replace (length (features inner) + i - length (features inner)) with i by lia.
Qed.

End LoaderClaims.

(** ** Comparing and rounding in exact arithmetic *)

Lemma same_point_exact (p q : point R) : same_point p q = true ↔ p = q.
Proof.
  destruct p as [x y], q as [x' y']. unfold same_point. cbn.
  destruct (Req_dec_T x x'), (Req_dec_T y y'); cbn; split; congruence.
Qed.

Lemma same_point_refl (p : point R) : same_point p p = true.
Proof. by apply same_point_exact. Qed.


(** A real less than a half away from an integer rounds to it. *)
Lemma nearest_even_near (x : R) (n : Z) :
  (IZR n - 1 / 2 < x < IZR n + 1 / 2)%R → nearest_even x = n.
Proof.
  intros [H1 H2]. unfold nearest_even.
  assert (up (x - 1 / 2) = n) as -> by (symmetry; apply tech_up; lra).
  destruct (Req_dec_T (IZR n) (x + 1 / 2)); [lra | done].
Qed.

Lemma real_round6_near (x : R) (n : Z) :
  (IZR n - 1 / 2 < x * 1000000 < IZR n + 1 / 2)%R →
  real_round6 x = (IZR n / 1000000)%R.
Proof. intros H. unfold real_round6. by rewrite (nearest_even_near _ n). Qed.

(** A number of at most six decimals is its own rounding. *)
Lemma real_round6_decimal (n : Z) :
  real_round6 (IZR n / 1000000) = (IZR n / 1000000)%R.
Proof. apply real_round6_near. lra. Qed.

Lemma planar_projection_Ok (lat_0 lon_0 : R) :
  (-90 <= lat_0 <= 90)%R →
  planar_projection lat_0 lon_0 = Ok (planar_to_geo lat_0 lon_0).
Proof.
  intros [H1 H2]. unfold planar_projection.
  destruct (Rle_dec (-90) lat_0); [|done]. by destruct (Rle_dec lat_0 90).
Qed.

Lemma planar_projection_Raise (lat_0 lon_0 : R) :
  (90 < lat_0)%R → planar_projection lat_0 lon_0 = Raise (CRSError "Invalid latitude").
Proof.
  intros H. unfold planar_projection.
  destruct (Rle_dec (-90) lat_0); [|done]. destruct (Rle_dec lat_0 90); [lra|done].
Qed.

(** ** The statements at concrete tables *)

Lemma compass_table_loads :
  load_csv_data (F:=R) compass_table
  = Ok (compass_directions, compass_risks, ((100 / 10)%R, (450 / 10)%R)).
Proof. vm_compute. reflexivity. Qed.

Lemma compass_risks_complete (d : string) :
  d ∈ compass_directions → complete compass_risks d.
Proof.
  intros Hd. exists compass_inner, compass_outer.
  repeat (apply elem_of_cons in Hd as [->|Hd]);
    [..|by apply elem_of_nil in Hd];
    eexists _, _; split_and!; vm_compute; reflexivity.
Qed.

(** The sampler on a quarter circle of radius 100, with the default
    point count. *)
Lemma arc_sampler_points_witness :
  30 ≥ 1
  ∧ ∃ points,
      calculate_arc_points (F:=R) (10, 45)%R 100%R 0%R 90%R (planar_to_geo 45 10) 30
      = Ok points
      ∧ length points = 30 + 1
      ∧ ∀ k, k ≤ 30 →
          points !! k
          = Some (planar_to_geo 45 10
                    (fmul 100%R (sin (theta 0%R 90%R 30 k)))
                    (fmul 100%R (cos (theta 0%R 90%R 30 k)))).
Proof.
  split; [lia|].
  apply (arc_sampler_points (F:=R) (10, 45)%R 100%R 0%R 90%R (planar_to_geo 45 10) 30).
  lia.
Defined.

(** A point count of zero: the sampler raises and returns no point. *)
Lemma arc_sampler_zero_points :
  calculate_arc_points (F:=R) (10, 45)%R 100%R 0%R 90%R (planar_to_geo 45 10) 0
  = Raise (ZeroDivisionError "float division by zero")
  ∧ ¬ ∃ points,
        calculate_arc_points (F:=R) (10, 45)%R 100%R 0%R 90%R (planar_to_geo 45 10) 0
        = Ok points
        ∧ length points = 0 + 1.
Proof.
  split; [apply calculate_arc_points_zero|].
  intros (points & H & _). rewrite calculate_arc_points_zero in H. discriminate.
Qed.

(** In binary64 the last sampled angle need not be the end angle: over
    the first of nineteen sectors, start + (end - start) * 30 / 30 is
    not end. *)
Lemma last_angle_rounded_binary64 :
  ∃ s e : float,
    segment_angles (F:=float) 19 0 = Ok (s, e)
    ∧ PrimFloat.eqb (fadd s (fdiv (fmul (fsub e s) (of_int 30)) (of_int 30))) e = false.
Proof. eexists _, _. split; vm_compute; reflexivity. Qed.


(** The inner rings of the compass table. *)
Lemma inner_ring_witness :
  (∀ d, d ∈ compass_directions → complete compass_risks d)
  ∧ same_point (10, 45)%R (10, 45)%R = true
  ∧ ∃ inner outer,
      generate_pie_chart (F:=R) compass_directions compass_risks (10, 45)%R
        100%R 200%R (planar_to_geo 45 10) = Ok (inner, outer)
      ∧ ∀ i d, compass_directions !! i = Some d →
          ∃ f start_angle end_angle arc,
            features inner !! i = Some f
            ∧ segment_angles (length compass_directions) i = Ok (start_angle, end_angle)
            ∧ calculate_arc_points (10, 45)%R 100%R start_angle end_angle
                (planar_to_geo 45 10) 30 = Ok arc
            ∧ mapping (shapely_Polygon ([(10, 45)%R] ++ arc ++ [(10, 45)%R]))
              = [(10, 45)%R] ++ arc ++ [(10, 45)%R]
            ∧ geometry f = round_point <$> ([(10, 45)%R] ++ arc ++ [(10, 45)%R])
            ∧ head (geometry f) = Some (round_point (10, 45)%R)
            ∧ last (geometry f) = Some (round_point (10, 45)%R)
            ∧ round_point (10, 45)%R ∈ geometry f
            ∧ (round_point (10, 45)%R = (10, 45)%R →
               head (geometry f) = Some (10, 45)%R ∧ last (geometry f) = Some (10, 45)%R
               ∧ (10, 45)%R ∈ geometry f).
Proof.
  split; [exact compass_risks_complete|]. split; [apply same_point_refl|].
  exact (inner_ring (F:=R) compass_directions compass_risks (10, 45)%R
           100%R 200%R (planar_to_geo 45 10) compass_risks_complete
           (same_point_refl _)).
Defined.

Lemma lone_risks_complete (d : string) : d ∈ ["A"] → complete lone_risks d.
Proof.
  intros Hd. apply list_elem_of_singleton in Hd as ->.
  exists {[ "A" := PyStr "Low" ]}, {[ "A" := PyStr "High" ]}, (PyStr "Low"), (PyStr "High").
  split_and!; vm_compute; reflexivity.
Qed.

(** A Center with seven decimals: the ring stored in the inner feature
    starts at the Center rounded to six decimals, and the Center is
    not among its vertices. *)
Lemma inner_ring_rounded :
  ∃ inner outer f,
    generate_pie_chart (F:=R) ["A"] lone_risks ((101234567 / 10000000)%R, 45%R)
      100%R 200%R (planar_to_geo 45 (101234567 / 10000000)) = Ok (inner, outer)
    ∧ features inner !! 0 = Some f
    ∧ head (geometry f) = Some ((10123457 / 1000000)%R, 45%R)
    ∧ head (geometry f) ≠ Some ((101234567 / 10000000)%R, 45%R)
    ∧ ((101234567 / 10000000)%R, 45%R) ∉ geometry f.
Proof.
  destruct (inner_ring_shape (F:=R) ["A"] lone_risks ((101234567 / 10000000)%R, 45%R)
              100%R 200%R (planar_to_geo 45 (101234567 / 10000000)) lone_risks_complete)
    as (inner & outer & Hgen & Hk).
  destruct (Hk 0 "A" eq_refl) as (f & s & e & arc & Hf & _ & _ & Hgeo).
  exists inner, outer, f.
  assert (head (geometry f) = Some ((10123457 / 1000000)%R, 45%R)) as Hhead.
  { rewrite Hgeo, head_fmap, close_ring_head. cbn. unfold round_point. cbn.
    rewrite (real_round6_near _ 10123457) by lra.
    rewrite (real_round6_near _ 45000000) by lra.
    do 2 f_equal. lra. }
  split_and!; [done | done | done | |].
  - rewrite Hhead. intros [= H]. lra.
  - rewrite Hgeo. intros Hin. apply list_elem_of_fmap in Hin as (p & Hp & _).
    injection Hp as Hx _. unfold round6, exact_geo, real_round6 in Hx.
    assert (IZR 101234567 = IZR (nearest_even (p.1 * 1000000) * 10)) as Hz
      by (rewrite mult_IZR; lra).
    apply eq_IZR in Hz. lia.
Qed.





Lemma risk_row_not_site (area risk : string) :
  area ≠ "Site" → ¬ is_site (risk_row area risk).
Proof.
  intros Hne Hs. unfold is_site, risk_row in Hs.
  rewrite lookup_insert_eq in Hs. congruence.
Qed.

Lemma short_row_not_site (area : string) :
  area ≠ "Site" → ¬ is_site (short_row area).
Proof.
  intros Hne Hs. unfold is_site, short_row in Hs.
  rewrite lookup_insert_eq in Hs. congruence.
Qed.

(** After the Site row, a row whose Area is North: the load stops
    there, at the unpacking of the one piece of North. In its place, a
    row N_R1 cut short after its Area: it is loaded, with None for the
    inner risk of N. *)
Lemma malformed_row_aborts_witness :
  load_rows (F:=R) loader_init [site_row "10.0" "45.0"]
  = Ok {| directions := []; risks := {[ "R1" := ∅; "R2" := ∅ ]};
          center := Some ((100 / 10)%R, (450 / 10)%R) |}
  ∧ ¬ is_site (risk_row "North" "High")
  ∧ ¬ decomposes (risk_row "North" "High")
  ∧ (∃ e,
       load_row (F:=R)
         {| directions := []; risks := {[ "R1" := ∅; "R2" := ∅ ]};
            center := Some ((100 / 10)%R, (450 / 10)%R) |}
         (risk_row "North" "High") = Raise e
       ∧ load_csv_data (F:=R)
           ([site_row "10.0" "45.0"] ++ risk_row "North" "High" :: [risk_row "N_R1" "Low"])
         = Raise e
       ∧ main planar_projection
           ([site_row "10.0" "45.0"] ++ risk_row "North" "High" :: [risk_row "N_R1" "Low"])
         = Raise e
       ∧ e = ValueError "not enough values to unpack (expected 2, got 1)")
  ∧ ¬ is_site (short_row "N_R1")
  ∧ row_key (short_row "N_R1") = Some ("N", "1")
  ∧ short_row "N_R1" !! "Risk" = Some PyNone
  ∧ ∃ st',
      load_row (F:=R)
        {| directions := []; risks := {[ "R1" := ∅; "R2" := ∅ ]};
           center := Some ((100 / 10)%R, (450 / 10)%R) |}
        (short_row "N_R1") = Ok st'
      ∧ load_rows (F:=R) loader_init ([site_row "10.0" "45.0"] ++ [short_row "N_R1"])
        = Ok st'
      ∧ lookup_risk (risks st') "N" "1" = Some PyNone
      ∧ "N" ∈ directions st'
      ∧ center st' = Some ((100 / 10)%R, (450 / 10)%R).
Proof.
  assert (¬ decomposes (risk_row "North" "High")) as Hbad.
  { intros H. apply decomposes_splits in H as (area & Harea & Hlen).
    unfold risk_row in Harea. rewrite lookup_insert_eq in Harea.
    injection Harea as <-. vm_compute in Hlen. lia. }
  assert (¬ is_site (risk_row "North" "High")) as Hsite by (by apply risk_row_not_site).
  assert (¬ is_site (short_row "N_R1")) as Hshort by (by apply short_row_not_site).
  assert (row_key (short_row "N_R1") = Some ("N", "1")) as Hkey by (vm_compute; reflexivity).
  assert (short_row "N_R1" !! "Risk" = Some PyNone) as Hrisk by (vm_compute; reflexivity).
  assert (load_rows (F:=R) loader_init [site_row "10.0" "45.0"]
          = Ok {| directions := []; risks := {[ "R1" := ∅; "R2" := ∅ ]};
                  center := Some ((100 / 10)%R, (450 / 10)%R) |}) as Hpre
    by (vm_compute; reflexivity).
  split; [exact Hpre|]. split; [exact Hsite|]. split; [exact Hbad|].
  destruct (malformed_row_aborts (F:=R) planar_projection [site_row "10.0" "45.0"]
              (risk_row "North" "High") [risk_row "N_R1" "Low"] _ Hpre Hsite)
    as [Hraise _].
  destruct (malformed_row_aborts (F:=R) planar_projection [site_row "10.0" "45.0"]
              (short_row "N_R1") [] _ Hpre Hshort)
    as [_ Hloads].
  split.
  - destruct (Hraise (or_introl Hbad)) as (e & Hrow & Hload & Hmain & _).
    exists e. split_and!; [exact Hrow | exact Hload | exact Hmain |].
    vm_compute in Hrow. congruence.
  - split; [exact Hshort|]. split; [exact Hkey|]. split; [exact Hrisk|].
    exact (Hloads "N" "1" PyNone Hkey (or_introl eq_refl) Hrisk).
Defined.

(** A row cut short after its Area has None for its Risk: it loads. *)
Lemma short_row_loads :
  ¬ is_site (short_row "N_R1")
  ∧ short_row "N_R1" !! "Risk" = Some PyNone
  ∧ load_csv_data (F:=float) [site_row "10.0" "45.0"; short_row "N_R1"]
    = Ok (["N"], {[ "R1" := {[ "N" := PyNone ]}; "R2" := ∅ ]}, (10%float, 45%float)).
Proof.
  split_and!.
  - intros Hs. unfold is_site, short_row in Hs. rewrite lookup_insert_eq in Hs. congruence.
  - vm_compute. reflexivity.
  - vm_compute. reflexivity.
Qed.

(** Two risk rows and no Site row. *)
Lemma no_site_row_fails_witness :
  Forall (fun row => ¬ is_site row) [risk_row "N_R1" "High"; risk_row "N_R2" "Low"]
  ∧ ∃ e,
      load_csv_data (F:=R) [risk_row "N_R1" "High"; risk_row "N_R2" "Low"] = Raise e
      ∧ main planar_projection [risk_row "N_R1" "High"; risk_row "N_R2" "Low"] = Raise e
      ∧ (is_Ok (load_rows (F:=R) loader_init [risk_row "N_R1" "High"; risk_row "N_R2" "Low"])
         → e = center_not_found)
      ∧ (∀ e', load_rows (F:=R) loader_init [risk_row "N_R1" "High"; risk_row "N_R2" "Low"]
               = Raise e' → e = e').
Proof.
  assert (Forall (fun row => ¬ is_site row)
            [risk_row "N_R1" "High"; risk_row "N_R2" "Low"]) as Hnone
    by (repeat constructor; by apply risk_row_not_site).
  split; [exact Hnone|].
  exact (no_site_row_fails (F:=R) planar_projection _ Hnone).
Defined.

(** No Site row and a tier that is neither 1 nor 2: the error is the
    KeyError of that row, not the missing centre. *)
Lemma no_site_row_other_error :
  Forall (fun row => ¬ is_site row) [risk_row "N_R3" "High"]
  ∧ load_csv_data (F:=R) [risk_row "N_R3" "High"] = Raise (KeyError "R3")
  ∧ main planar_projection [risk_row "N_R3" "High"] = Raise (KeyError "R3")
  ∧ KeyError "R3" ≠ center_not_found.
Proof.
  split_and!.
  - repeat constructor. by apply risk_row_not_site.
  - vm_compute. reflexivity.
  - vm_compute. reflexivity.
  - discriminate.
Qed.

Lemma cut_table_loads :
  load_csv_data (F:=R) cut_table
  = Ok (["N"; "E"], {[ "R1" := cut_inner; "R2" := cut_outer ]},
        ((100 / 10)%R, (450 / 10)%R)).
Proof. vm_compute. reflexivity. Qed.

(** E has an inner risk and no outer one, and is the first direction to
    lack a risk: its inner sector is built, its outer sector raises. *)
Lemma missing_outer_risk_witness :
  planar_projection (450 / 10) (100 / 10) = Ok (planar_to_geo (450 / 10) (100 / 10))
  ∧ is_Some (cut_inner !! "E") ∧ cut_outer !! "E" = None
  ∧ ∃ pre d0 post,
      ["N"; "E"] = pre ++ d0 :: post
      ∧ Forall (complete {[ "R1" := cut_inner; "R2" := cut_outer ]}) pre
      ∧ ¬ complete {[ "R1" := cut_inner; "R2" := cut_outer ]} d0
      ∧ main planar_projection cut_table = Raise (KeyError d0)
      ∧ (d0 = "E" ∨ "E" ∈ post)
      ∧ (d0 = "E" →
         ∃ s e arc f,
           segment_angles (F:=R) (length ["N"; "E"]) (length pre) = Ok (s, e)
           ∧ inner_sector {[ "R1" := cut_inner; "R2" := cut_outer ]}
               ((100 / 10)%R, (450 / 10)%R) (of_int 100)
               (planar_to_geo (450 / 10) (100 / 10)) s e "E" = Ok (arc, f)
           ∧ outer_sector {[ "R1" := cut_inner; "R2" := cut_outer ]}
               ((100 / 10)%R, (450 / 10)%R) (of_int 200)
               (planar_to_geo (450 / 10) (100 / 10)) s e "E" arc
             = Raise (KeyError "E")).
Proof.
  assert (is_Some (cut_inner !! "E")) as Hin by (exists (PyStr "Low"); by vm_compute).
  assert (cut_outer !! "E" = None) as Hout by (by vm_compute).
  assert (planar_projection (450 / 10) (100 / 10)
          = Ok (planar_to_geo (450 / 10) (100 / 10))) as Hproj
    by (apply planar_projection_Ok; lra).
  split; [exact Hproj|]. split; [exact Hin|]. split; [exact Hout|].
  exact (missing_outer_risk (F:=R) planar_projection cut_table ["N"; "E"]
           {[ "R1" := cut_inner; "R2" := cut_outer ]} ((100 / 10)%R, (450 / 10)%R)
           (planar_to_geo (450 / 10) (100 / 10))
           cut_inner cut_outer "E" cut_table_loads Hproj eq_refl eq_refl Hin Hout).
Defined.

Lemma lopsided_table_loads :
  load_csv_data (F:=R) lopsided_table
  = Ok (["A"; "B"], lopsided_risks, ((100 / 10)%R, (450 / 10)%R)).
Proof. vm_compute. reflexivity. Qed.

(** B has an inner risk and no outer one, but A, listed before it, has
    no inner risk: the run ends in the inner sector of A. *)
Lemma missing_outer_risk_elsewhere :
  ∃ c s e,
    load_csv_data (F:=R) lopsided_table = Ok (["A"; "B"], lopsided_risks, c)
    ∧ planar_projection c.2 c.1 = Ok (planar_to_geo c.2 c.1)
    ∧ lopsided_risks !! "R1" = Some {[ "B" := PyStr "High" ]}
    ∧ lopsided_risks !! "R2" = Some {[ "A" := PyStr "Low" ]}
    ∧ ({[ "B" := PyStr "High" ]} : gmap string value) !! "B" = Some (PyStr "High")
    ∧ ({[ "A" := PyStr "Low" ]} : gmap string value) !! "B" = None
    ∧ main planar_projection lopsided_table = Raise (KeyError "A")
    ∧ segment_angles (F:=R) 2 0 = Ok (s, e)
    ∧ inner_sector lopsided_risks c (of_int 100) (planar_to_geo c.2 c.1) s e "A"
      = Raise (KeyError "A").
Proof.
  assert (planar_projection (450 / 10) (100 / 10)
          = Ok (planar_to_geo (450 / 10) (100 / 10))) as Hproj
    by (apply planar_projection_Ok; lra).
  assert (¬ complete lopsided_risks "A") as Hbad.
  { intros (t1 & t2 & v1 & v2 & H1 & Hv1 & _). vm_compute in H1.
    injection H1 as <-. vm_compute in Hv1. discriminate. }
  destruct (sector_incomplete (F:=R) lopsided_risks ((100 / 10)%R, (450 / 10)%R)
              (of_int 100) (of_int 200) (planar_to_geo (450 / 10) (100 / 10))
              2 0 "A" {[ "B" := PyStr "High" ]} {[ "A" := PyStr "Low" ]})
    as [Hsector _]; [done | done | done | done |].
  destruct (segment_angles_Ok (F:=R) 2 0) as [[s e] Hse]; [done|].
  exists ((100 / 10)%R, (450 / 10)%R), s, e. split_and!.
  - exact lopsided_table_loads.
  - exact Hproj.
  - reflexivity.
  - reflexivity.
  - reflexivity.
  - reflexivity.
  - unfold main. rewrite lopsided_table_loads. cbn [mbind result_bind].
    cbn [fst snd]. rewrite Hproj. cbn [mbind result_bind].
    unfold generate_pie_chart. cbn [length].
    rewrite (sectors_from_first_error lopsided_risks _ _ _ _ 2 [] 0 [] [] "A" ["B"]
               (KeyError "A")); [done | | exact Hsector].
    intros k x Hx. by rewrite lookup_nil in Hx.
  - exact Hse.
  - unfold inner_sector. rewrite calculate_arc_points_30. reflexivity.
Qed.

(** The centre and the tables of the compass table. *)
Lemma site_row_center_witness :
  load_csv_data (F:=R) compass_table
  = Ok (compass_directions, compass_risks, ((100 / 10)%R, (450 / 10)%R))
  ∧ (∃ pre site post,
       compass_table = pre ++ site :: post ∧ is_site site
       ∧ Forall (fun row => ¬ is_site row) post
       ∧ (lon ← getitem site "Lon_NO" ≫= to_float;
          lat ← getitem site "Lat_NO" ≫= to_float;
          Ok (lon, lat)) = Ok ((100 / 10)%R, (450 / 10)%R))
  ∧ ∃ st, load_rows (F:=R) loader_init
            (filter (fun row => ¬ is_site row) compass_table) = Ok st
          ∧ directions st = compass_directions ∧ risks st = compass_risks.
Proof.
  split; [exact compass_table_loads|].
  exact (site_row_center (F:=R) compass_table compass_directions compass_risks
           ((100 / 10)%R, (450 / 10)%R) compass_table_loads).
Defined.

(** A Site row under the header Area,Risk,Lon,Lat: the loader looks for
    Lon_NO and raises. *)
Lemma lon_lat_fields_not_read :
  is_site (lon_lat_site_row "10.0" "45.0")
  ∧ lon_lat_site_row "10.0" "45.0" !! "Lon" = Some (PyStr "10.0")
  ∧ lon_lat_site_row "10.0" "45.0" !! "Lat" = Some (PyStr "45.0")
  ∧ load_csv_data (F:=float)
      [lon_lat_site_row "10.0" "45.0"; risk_row "N_R1" "High"; risk_row "N_R2" "Low"]
    = Raise (KeyError "Lon_NO").
Proof. split_and!; vm_compute; reflexivity. Qed.

Lemma site_row_is_site (lon lat : string) : is_site (site_row lon lat).
Proof. unfold is_site, site_row. by rewrite lookup_insert_eq. Qed.

Lemma site_row_loadable (lon lat : string) (c : point R) :
  site_center (F:=R) (site_row lon lat) = Ok c → loadable (F:=R) (site_row lon lat).
Proof. intros Hc. left. split; [apply site_row_is_site | by exists c]. Qed.

Lemma risk_row_loadable (d t risk : string) :
  row_key (risk_row (d +:+ "_R" +:+ t) risk) = Some (d, t) → t = "1" ∨ t = "2" →
  loadable (F:=R) (risk_row (d +:+ "_R" +:+ t) risk).
Proof.
  intros Hk Ht. right. split.
  - intros Hs. apply row_key_site in Hs. congruence.
  - exists d, t. split_and!; [done..|]. exists (PyStr risk).
    unfold risk_row. by rewrite lookup_insert_ne, lookup_insert_eq.
Qed.

(** Three Site rows, each readable: the table loads, dropping the
    first or the second changes nothing, and the Center is the one of
    the third. *)
Lemma last_site_wins_witness :
  Forall (loadable (F:=R)) moved_site_table
  ∧ Exists is_site moved_site_table
  ∧ (∃ dirs risks0 c pre site post,
       load_csv_data (F:=R) moved_site_table = Ok (dirs, risks0, c)
       ∧ moved_site_table = pre ++ site :: post ∧ is_site site
       ∧ Forall (fun row => ¬ is_site row) post
       ∧ site_center (F:=R) site = Ok c)
  ∧ load_csv_data (F:=R) moved_site_table
    = load_csv_data (F:=R)
        [risk_row "N_R1" "High"; risk_row "N_R2" "Low"; site_row "10.0" "45.0"]
  ∧ ∃ pre site post,
      moved_site_table = pre ++ site :: post ∧ is_site site
      ∧ Forall (fun row => ¬ is_site row) post
      ∧ site_center (F:=R) site = Ok ((100 / 10)%R, (450 / 10)%R).
Proof.
  destruct (last_site_wins (F:=R)) as (Hloads & Hdrop & Hlast).
  assert (Forall (loadable (F:=R)) moved_site_table) as Hall.
  { unfold moved_site_table. repeat apply Forall_cons_2; [| | | | |apply Forall_nil_2].
    - apply (site_row_loadable _ _ ((10 / 10)%R, (20 / 10)%R)). by vm_compute.
    - apply (risk_row_loadable "N" "1" "High"); [by vm_compute | by left].
    - apply (site_row_loadable _ _ ((30 / 10)%R, (40 / 10)%R)). by vm_compute.
    - apply (risk_row_loadable "N" "2" "Low"); [by vm_compute | by right].
    - apply (site_row_loadable _ _ ((100 / 10)%R, (450 / 10)%R)). by vm_compute. }
  assert (Exists is_site moved_site_table) as Hsome
    by apply Exists_cons_hd, site_row_is_site.
  split; [exact Hall|]. split; [exact Hsome|]. split; [exact (Hloads _ Hall Hsome)|].
  split.
  - transitivity (load_csv_data (F:=R)
      [risk_row "N_R1" "High"; site_row "3.0" "4.0";
       risk_row "N_R2" "Low"; site_row "10.0" "45.0"]).
    + apply (Hdrop [] (site_row "1.0" "2.0")
               [risk_row "N_R1" "High"; site_row "3.0" "4.0";
                risk_row "N_R2" "Low"; site_row "10.0" "45.0"]
               ((10 / 10)%R, (20 / 10)%R)); [apply site_row_is_site | by vm_compute |].
      apply Exists_cons_tl, Exists_cons_hd, site_row_is_site.
    + apply (Hdrop [risk_row "N_R1" "High"] (site_row "3.0" "4.0")
               [risk_row "N_R2" "Low"; site_row "10.0" "45.0"]
               ((30 / 10)%R, (40 / 10)%R)); [apply site_row_is_site | by vm_compute |].
      apply Exists_cons_tl, Exists_cons_hd, site_row_is_site.
  - apply (Hlast moved_site_table ["N"]
             {[ "R1" := {[ "N" := PyStr "High" ]}; "R2" := {[ "N" := PyStr "Low" ]} ]}).
    vm_compute. reflexivity.
Defined.

(** Two Site rows, the first with an empty longitude: the loader
    raises in the turn of the first, and the readable second Site row
    is never reached. *)
Lemma unreadable_first_site_row :
  is_site (site_row "" "45.0") ∧ is_site (site_row "10.0" "45.0")
  ∧ load_csv_data (F:=float) [site_row "" "45.0"; site_row "10.0" "45.0"]
    = Raise (ValueError "could not convert string to float")
  ∧ load_csv_data (F:=float) [site_row "10.0" "45.0"]
    = Ok ([], {[ "R1" := ∅; "R2" := ∅ ]}, (10%float, 45%float))
  ∧ ¬ is_Ok (load_csv_data (F:=float) [site_row "" "45.0"; site_row "10.0" "45.0"]).
Proof.
  assert (load_csv_data (F:=float) [site_row "" "45.0"; site_row "10.0" "45.0"]
          = Raise (ValueError "could not convert string to float")) as H
    by (vm_compute; reflexivity).
  split_and!; [apply site_row_is_site | apply site_row_is_site | exact H | |].
  - vm_compute. reflexivity.
  - intros [x Hx]. rewrite H in Hx. discriminate.
Qed.

(** The compass table: eight features, inner ones first. *)
Lemma merged_features_witness :
  load_csv_data (F:=R) compass_table
  = Ok (compass_directions, compass_risks, ((100 / 10)%R, (450 / 10)%R))
  ∧ planar_projection (450 / 10) (100 / 10) = Ok (planar_to_geo (450 / 10) (100 / 10))
  ∧ (∀ d, d ∈ compass_directions → complete compass_risks d)
  ∧ ∃ inner outer,
      main planar_projection compass_table = Ok (Build_FeatureCollection (inner ++ outer))
      ∧ generate_pie_chart compass_directions compass_risks ((100 / 10)%R, (450 / 10)%R)
          (of_int 100) (of_int 200) (planar_to_geo (450 / 10) (100 / 10))
        = Ok (Build_FeatureCollection inner, Build_FeatureCollection outer)
      ∧ length inner = length compass_directions
      ∧ length outer = length compass_directions
      ∧ length (inner ++ outer) = 2 * length compass_directions
      ∧ NoDup compass_directions
      ∧ ∀ i d, compass_directions !! i = Some d →
          ∃ fi fo tier1 tier2,
            (inner ++ outer) !! i = Some fi
            ∧ (inner ++ outer) !! (length compass_directions + i) = Some fo
            ∧ inner !! i = Some fi
            ∧ outer !! i = Some fo
            ∧ Area (props fi) = d +:+ "_R1"
            ∧ Area (props fo) = d +:+ "_R2"
            ∧ compass_risks !! "R1" = Some tier1 ∧ tier1 !! d = Some (Risk (props fi))
            ∧ compass_risks !! "R2" = Some tier2 ∧ tier2 !! d = Some (Risk (props fo)).
Proof.
  assert (planar_projection (450 / 10) (100 / 10)
          = Ok (planar_to_geo (450 / 10) (100 / 10))) as Hproj
    by (apply planar_projection_Ok; lra).
  split; [exact compass_table_loads|]. split; [exact Hproj|].
  split; [exact compass_risks_complete|].
  exact (merged_features (F:=R) planar_projection compass_table compass_directions
           compass_risks ((100 / 10)%R, (450 / 10)%R)
           (planar_to_geo (450 / 10) (100 / 10))
           compass_table_loads Hproj compass_risks_complete).
Defined.

(** A Site row at latitude 95: the table loads, the projection is
    refused, and the run ends there, before any sector is built. *)
Lemma latitude_out_of_range :
  load_csv_data (F:=R) [site_row "10.0" "95.0"; risk_row "N_R1" "High"; risk_row "N_R2" "Low"]
  = Ok (["N"], {[ "R1" := {[ "N" := PyStr "High" ]}; "R2" := {[ "N" := PyStr "Low" ]} ]},
        ((100 / 10)%R, (950 / 10)%R))
  ∧ main planar_projection
      [site_row "10.0" "95.0"; risk_row "N_R1" "High"; risk_row "N_R2" "Low"]
    = Raise (CRSError "Invalid latitude").
Proof.
  assert (load_csv_data (F:=R)
            [site_row "10.0" "95.0"; risk_row "N_R1" "High"; risk_row "N_R2" "Low"]
          = Ok (["N"], {[ "R1" := {[ "N" := PyStr "High" ]}; "R2" := {[ "N" := PyStr "Low" ]} ]},
                ((100 / 10)%R, (950 / 10)%R))) as Hload
    by (vm_compute; reflexivity).
  split; [exact Hload|].
  unfold main. rewrite Hload. cbn [mbind result_bind fst snd].
  rewrite planar_projection_Raise by lra. reflexivity.
Qed.

(** * Further properties of the loader *)

Section LoaderExtras.
Context {F : Type} `{!Float F}.
Implicit Types (st : loader F) (row : gmap string value) (rows : list (gmap string value)).

Lemma lookup_risk_rows rows :
  ∀ st st' d t v, load_rows st rows = Ok st' →
    lookup_risk (risks st') d t = Some v ↔
    (∃ pre row post,
       rows = pre ++ row :: post ∧ row_key row = Some (d, t)
       ∧ row !! "Risk" = Some v
       ∧ Forall (fun r => row_key r ≠ Some (d, t)) post)
    ∨ (Forall (fun r => row_key r ≠ Some (d, t)) rows
       ∧ lookup_risk (risks st) d t = Some v).
Proof.
  induction rows as [|row rows IH]; intros st st' d t v H.
  - injection H as <-. split.
    + intros Hv. right. by split.
    + intros [(pre & r & post & Heq & _)|[_ Hv]]; [by destruct pre|done].
  - cbn [load_rows] in H. bind_split H as st1 Hst1.
    rewrite (IH _ _ d t v H), (lookup_risk_step _ _ _ d t Hst1). split.
    + intros [(pre & r & post & -> & Hk & Hr & Hpost)|[Hall Hv]].
      * left. by exists (row :: pre), r, post.
      * destruct (decide (row_key row = Some (d, t))) as [Hk|Hk].
        -- left. by exists [], row, rows.
        -- right. split; [by constructor|done].
    + intros [(pre & r & post & Heq & Hk & Hr & Hpost)|[Hall Hv]].
      * destruct pre as [|r' pre]; injection Heq as -> ->.
        -- right. split; [done|]. by rewrite decide_True.
        -- left. by exists pre, r, post.
      * apply Forall_cons in Hall as [Hk Hall]. right. split; [done|].
        by rewrite decide_False.
Qed.

(** X2: the risk recorded for a direction and a tier is the Risk of the last
    row with that direction and tier, and there is one exactly when the
    table has such a row. *)
Theorem loaded_risk_last_row rows dirs risks0 c d t v :
  load_csv_data rows = Ok (dirs, risks0, c) →
  lookup_risk risks0 d t = Some v ↔
  ∃ pre row post,
    rows = pre ++ row :: post ∧ row_key row = Some (d, t)
    ∧ row !! "Risk" = Some v
    ∧ Forall (fun r => row_key r ≠ Some (d, t)) post.
Proof.
  intros H. apply load_csv_data_Ok in H as (st & Hst & _ & <- & _).
  rewrite (lookup_risk_rows rows _ _ d t v Hst). split; [|by left].
  intros [?|[_ Hv]]; [done|]. by rewrite lookup_risk_init in Hv.
Qed.

(** A direction is listed when a risk is recorded for it. *)
Lemma listed_of_risk st d t :
  loader_inv st → is_Some (lookup_risk (risks st) d t) → d ∈ directions st.
Proof.
  intros Hinv [v Hv]. unfold lookup_risk in Hv.
  destruct (risks st !! ("R" +:+ t)) as [tier|] eqn:Ht; [|done].
  eapply (inv_listed st Hinv); [exact Ht | by exists v].
Qed.

(** Every listed direction has a risk in some tier. *)
Lemma load_row_risk_of_listed st st' row :
  (∀ d, d ∈ directions st → ∃ t, is_Some (lookup_risk (risks st) d t)) →
  load_row st row = Ok st' →
  ∀ d, d ∈ directions st' → ∃ t, is_Some (lookup_risk (risks st') d t).
Proof.
  intros Hall H d Hd. destruct (decide (is_site row)) as [Hs|Hs].
  - rewrite load_row_site in H by done. bind_split H as c Hc. injection H as <-.
    by apply Hall.
  - pose proof (load_row_key _ _ _ Hs H) as (d0 & t0 & risk & tier & Hk & Hr & Ht & Hst').
    assert (d = d0 ∨ d ∈ directions st) as [->|Hold].
    { rewrite Hst' in Hd. cbn [directions] in Hd. case_decide; [by right|].
      apply elem_of_app in Hd as [?|Hd]; [by right|].
      apply list_elem_of_singleton in Hd. by left. }
    + exists t0. rewrite (lookup_risk_step _ _ _ d0 t0 H), decide_True by done.
      rewrite Hr. by eexists.
    + destruct (Hall d Hold) as [t Hsome]. exists t.
      rewrite (lookup_risk_step _ _ _ d t H).
      destruct (decide (row_key row = Some (d, t))); [|done].
      rewrite Hr. by eexists.
Qed.

Lemma load_rows_risk_of_listed rows :
  ∀ st st',
    (∀ d, d ∈ directions st → ∃ t, is_Some (lookup_risk (risks st) d t)) →
    load_rows st rows = Ok st' →
    ∀ d, d ∈ directions st' → ∃ t, is_Some (lookup_risk (risks st') d t).
Proof.
  induction rows as [|row rows IH]; intros st st' Hall H.
  - by injection H as <-.
  - cbn [load_rows] in H. bind_split H as st1 Hst1.
    eapply IH; [|exact H]. by eapply load_row_risk_of_listed.
Qed.

(** X3: the directions returned are, without repeats, exactly the directions
    that have a risk in at least one tier. *)
Theorem loaded_directions_exact rows dirs risks0 c :
  load_csv_data rows = Ok (dirs, risks0, c) →
  NoDup dirs ∧ ∀ d, d ∈ dirs ↔ ∃ t, is_Some (lookup_risk risks0 d t).
Proof.
  intros H. apply load_csv_data_Ok in H as (st & Hst & <- & <- & _).
  assert (loader_inv st) as Hinv
    by (eapply load_rows_inv; [apply loader_init_inv | exact Hst]).
  split; [by apply inv_nodup|]. intros d. split.
  - revert d. eapply load_rows_risk_of_listed; [|exact Hst].
    intros d Hd. by apply elem_of_nil in Hd.
  - intros [t Hsome]. by eapply listed_of_risk.
Qed.

Lemma load_row_directions_prefix st st' row :
  load_row st row = Ok st' → directions st `prefix_of` directions st'.
Proof.
  intros H. destruct (decide (is_site row)) as [Hs|Hs].
  - rewrite load_row_site in H by done. bind_split H as c Hc. by injection H as <-.
  - apply load_row_key in H as (d0 & t0 & risk & tier & _ & _ & _ & ->); [|done].
    cbn [directions]. case_decide; [done|]. by apply prefix_app_r.
Qed.

Lemma load_rows_directions_prefix rows :
  ∀ st st', load_rows st rows = Ok st' → directions st `prefix_of` directions st'.
Proof.
  induction rows as [|row rows IH]; intros st st' H.
  - by injection H as <-.
  - cbn [load_rows] in H. bind_split H as st1 Hst1.
    etrans; [by eapply load_row_directions_prefix | by eapply IH].
Qed.

(** X4: rows added at the end of a table leave the directions found so far
    where they are: the directions of the longer table start with those
    of the shorter one. *)
Theorem loaded_directions_prefix rows more dirs risks0 c dirs' risks1 c' :
  load_csv_data rows = Ok (dirs, risks0, c) →
  load_csv_data (rows ++ more) = Ok (dirs', risks1, c') →
  dirs `prefix_of` dirs'.
Proof.
  intros H H'.
  apply load_csv_data_Ok in H as (st & Hst & <- & _).
  apply load_csv_data_Ok in H' as (st' & Hst' & <- & _).
  rewrite load_rows_app, Hst in Hst'. cbn [mbind result_bind] in Hst'.
  by eapply load_rows_directions_prefix.
Qed.

(** X1: a row other than the Site row is taken exactly when its Area splits
    at _R into two pieces, the second being 1 or 2, and the row has a
    Risk field. *)
Theorem row_accepted_iff st row :
  loader_inv st → ¬ is_site row →
  is_Ok (load_row st row) ↔
  ∃ d t, row_key row = Some (d, t) ∧ (t = "1" ∨ t = "2") ∧ is_Some (row !! "Risk").
Proof.
  intros Hinv Hs. split.
  - intros [st' H].
    apply load_row_key in H as (d & t & risk & tier & Hk & Hr & Ht & _); [|done].
    exists d, t. split_and!; [done| |by eexists].
    apply (loaded_tier st); [done | by eexists].
  - intros (d & t & Hk & Ht & [risk Hr]).
    apply row_key_Some in Hk as (area & Ha & Hne & Hsp).
    assert (is_Some (risks st !! ("R" +:+ t))) as [tier Htier].
    { apply (inv_tiers st Hinv). rewrite append_cons, append_nil.
      destruct Ht as [-> | ->]; auto. }
    unfold load_row.
    rewrite (proj2 (getitem_Ok row "Area" (PyStr area)) Ha). cbn [mbind result_bind].
    rewrite decide_False by (intros [= ->]; done).
    cbn [value_split mbind result_bind]. rewrite Hsp. cbn [unpack2 mbind result_bind].
    rewrite (proj2 (getitem_Ok row "Risk" risk) Hr). cbn [mbind result_bind].
    rewrite (proj2 (getitem_Ok (risks st) ("R" +:+ t) tier) Htier).
    cbn [mbind result_bind]. by eexists.
Qed.

(** X5: a Site row whose coordinates cannot be read ends the load in its
    turn, whatever follows it, a later Site row included. *)
Theorem unreadable_site_row_aborts pre row post st e :
  load_rows loader_init pre = Ok st →
  is_site row → site_center row = Raise e →
  load_csv_data (pre ++ row :: post) = Raise e.
Proof.
  intros Hpre Hs He. unfold load_csv_data.
  rewrite load_rows_app, Hpre. cbn [mbind result_bind load_rows].
  rewrite load_row_site by done. by rewrite He.
Qed.

End LoaderExtras.

(** * Further properties of the assembler and of the run *)

Section RunExtras.
Context {F : Type} `{!Float F} `{!Math F} `{!Geo F}.
Implicit Types (rows : list (gmap string value)).

Lemma sector_Ok_complete (risks0 : gmap string (gmap string value)) (c : point F) (ri ro : F) (T : F → F → point F)
    (N i : nat) (d : string) (fi fo : Feature F) :
  sector N risks0 c ri ro T i d = Ok (fi, fo) → complete risks0 d.
Proof.
  intros H. apply sector_inv in H as (s & e & arc & _ & Hin & Hout).
  apply inner_sector_inv in Hin as (_ & _ & _ & t1 & Ht1 & Hv1).
  apply outer_sector_inv in Hout as (_ & _ & _ & _ & t2 & Ht2 & Hv2).
  by exists t1, t2, (Risk (props fi)), (Risk (props fo)).
Qed.

Lemma getitem2_Raise (risks0 : gmap string (gmap string value)) (key d : string) (e : exn) :
  getitem risks0 key ≫= (fun tier => getitem tier d) = Raise e →
  e = KeyError key ∨ e = KeyError d.
Proof.
  unfold getitem. destruct (risks0 !! key) as [tier|]; cbn [mbind result_bind].
  - destruct (tier !! d); [discriminate|]. intros [= <-]. by right.
  - intros [= <-]. by left.
Qed.

Lemma sector_Raise (risks0 : gmap string (gmap string value)) (c : point F) (ri ro : F) (T : F → F → point F)
    (N i : nat) (d : string) (e : exn) :
  N ≠ 0 → sector N risks0 c ri ro T i d = Raise e →
  e = KeyError "R1" ∨ e = KeyError "R2" ∨ e = KeyError d.
Proof.
  intros HN. destruct (segment_angles_Ok (F:=F) N i HN) as [[s e'] Hse].
  unfold sector. rewrite Hse. cbn [mbind result_bind].
  unfold inner_sector. rewrite calculate_arc_points_30. cbn [mbind result_bind].
  destruct (getitem risks0 "R1" ≫= (fun tier => getitem tier d)) as [v1|e1] eqn:H1;
    cbn [mbind result_bind].
  - unfold outer_sector. rewrite calculate_arc_points_30. cbn [mbind result_bind].
    destruct (getitem risks0 "R2" ≫= (fun tier => getitem tier d)) as [v2|e2] eqn:H2;
      cbn [mbind result_bind]; [discriminate|].
    intros [= <-]. apply getitem2_Raise in H2 as [->| ->]; auto.
  - intros [= <-]. apply getitem2_Raise in H1 as [->| ->]; auto.
Qed.

Lemma sectors_from_Raise (risks0 : gmap string (gmap string value)) (c : point F) (ri ro : F) (T : F → F → point F)
    (N : nat) (ds : list string) :
  N ≠ 0 →
  ∀ i acc_i acc_o e,
    sectors_from N risks0 c ri ro T i ds acc_i acc_o = Raise e →
    ∃ k, e = KeyError k ∧ (k = "R1" ∨ k = "R2" ∨ k ∈ ds).
Proof.
  intros HN. induction ds as [|d ds IH]; intros i acc_i acc_o e H; [discriminate|].
  cbn [sectors_from] in H.
  destruct (sector N risks0 c ri ro T i d) as [[a b]|e'] eqn:Hs; cbn [mbind result_bind] in H.
  - apply IH in H as (k & -> & Hk). exists k. split; [done|].
    destruct Hk as [?|[?|?]]; auto. right. right. by right.
  - injection H as <-. apply sector_Raise in Hs as [->|[->| ->]]; [| | |done].
    + exists "R1". auto.
    + exists "R2". auto.
    + exists d. split; [done|]. right. right. by left.
Qed.

(** X7: the assembler raises nothing but KeyError, on a tier or on one of
    the directions it was given; in particular it never divides by zero. *)
Theorem assembler_raises_key_error_only (directions : list string)
    (risks0 : gmap string (gmap string value))
    (c : point F) (ri ro : F) (T : F → F → point F) (e : exn) :
  generate_pie_chart directions risks0 c ri ro T = Raise e →
  ∃ k, e = KeyError k ∧ (k = "R1" ∨ k = "R2" ∨ k ∈ directions).
Proof.
  unfold generate_pie_chart. intros H.
  destruct (sectors_from (length directions) risks0 c ri ro T 0 directions [] [])
    as [[fi fo]|e'] eqn:Hs; cbn [mbind result_bind] in H; [discriminate|].
  injection H as <-.
  destruct directions as [|d ds]; [discriminate|].
  eapply sectors_from_Raise; [|exact Hs]. done.
Qed.

(** X8: the ring stored in an inner feature has 33 vertices (Center,
    the 31 points of the arc, Center) when the coordinates of Center
    compare equal to themselves, and 34 otherwise. The ring stored in
    an outer feature has the 62 points of the two arcs when the first
    point of the outer arc is the first point of the inner arc, and 63
    otherwise, the first vertex closing the ring. *)
Theorem ring_sizes (directions : list string)
    (risks0 : gmap string (gmap string value))
    (c : point F) (ri ro : F) (T : F → F → point F) inner outer :
  generate_pie_chart directions risks0 c ri ro T = Ok (inner, outer) →
  (∀ f, f ∈ features inner →
     length (geometry f) = if same_point c c then 33 else 34)
  ∧ (∀ i f s e,
       features outer !! i = Some f →
       segment_angles (length directions) i = Ok (s, e) →
       length (geometry f)
       = if same_point (sample ro s e T 30 0) (sample ri s e T 30 0) then 62 else 63)
  ∧ (∀ f, f ∈ features outer →
       length (geometry f) = 62 ∨ length (geometry f) = 63).
Proof.
  intros Hgen. apply generate_pie_chart_inv in Hgen as (Hli & Hlo & Hk).
  assert (∀ i fi fo d, sector (length directions) risks0 c ri ro T i d = Ok (fi, fo) →
            length (geometry fi) = (if same_point c c then 33 else 34)
            ∧ ∃ s e, segment_angles (length directions) i = Ok (s, e)
                     ∧ length (geometry fo)
                       = if same_point (sample ro s e T 30 0) (sample ri s e T 30 0)
                         then 62 else 63) as Hsize.
  { intros i fi fo d Hs. apply sector_inv in Hs as (s & e & arc & Hse & Hin & Hout).
    apply inner_sector_inv in Hin as (Harc & Hgi & _).
    apply outer_sector_inv in Hout as (oarc & Hoarc & Hgo & _).
    rewrite calculate_arc_points_30 in Harc, Hoarc.
    assert (arc = sample ri s e T 30 <$> seq 0 31) as -> by congruence.
    assert (oarc = sample ro s e T 30 <$> seq 0 31) as -> by congruence.
    split.
    - rewrite Hgi, length_fmap.
      assert (last ([c] ++ (sample ri s e T 30 <$> seq 0 31) ++ [c]) = Some c) as Hlast
        by (by rewrite app_assoc, last_snoc).
      destruct (same_point c c) eqn:Hc.
      + erewrite close_ring_shut; [|reflexivity|exact Hlast|exact Hc].
        by rewrite !length_app, length_fmap, length_seq.
      + erewrite close_ring_open; [|reflexivity|exact Hlast|exact Hc].
        by rewrite !length_app, length_fmap, length_seq.
    - exists s, e. split; [done|]. rewrite Hgo, length_fmap.
      change (seq 0 31) with (0 :: seq 1 30). rewrite !fmap_cons.
      destruct (same_point (sample ro s e T 30 0) (sample ri s e T 30 0)) eqn:Hp.
      + erewrite close_ring_shut; [|reflexivity|apply last_app_rev_cons|exact Hp].
        rewrite length_app, length_rev. cbn [length].
        by rewrite !length_fmap, !length_seq.
      + erewrite close_ring_open; [|reflexivity|apply last_app_rev_cons|exact Hp].
        rewrite !length_app, length_rev. cbn [length].
        by rewrite !length_fmap, !length_seq. }
  split_and!.
  - intros f Hf. apply list_elem_of_lookup in Hf as [i Hi].
    destruct (lookup_lt_is_Some_2 directions i) as [d Hd].
    { rewrite <- Hli. by eapply lookup_lt_Some. }
    apply Hk in Hd as (fi & fo & Hfi & _ & Hs).
    assert (fi = f) as -> by congruence. by apply Hsize in Hs as [? _].
  - intros i f s e Hi Hse.
    destruct (lookup_lt_is_Some_2 directions i) as [d Hd].
    { rewrite <- Hlo. by eapply lookup_lt_Some. }
    apply Hk in Hd as (fi & fo & _ & Hfo & Hs).
    assert (fo = f) as -> by congruence.
    apply Hsize in Hs as [_ (s' & e' & Hse' & Hlen)].
    assert (s' = s ∧ e' = e) as [-> ->] by (split; congruence). done.
  - intros f Hf. apply list_elem_of_lookup in Hf as [i Hi].
    destruct (lookup_lt_is_Some_2 directions i) as [d Hd].
    { rewrite <- Hlo. by eapply lookup_lt_Some. }
    apply Hk in Hd as (fi & fo & _ & Hfo & Hs).
    assert (fo = f) as -> by congruence.
    apply Hsize in Hs as [_ (s' & e' & _ & ->)].
    destruct (same_point (sample ro s' e' T 30 0) (sample ri s' e' T 30 0)); auto.
Qed.

Lemma merged_features_total (projection : F → F → result (F → F → point F)) rows dirs
    (risks0 : gmap string (gmap string value)) c (T : F → F → point F) :
  load_csv_data rows = Ok (dirs, risks0, c) →
  projection c.2 c.1 = Ok T →
  (∀ d, d ∈ dirs → complete risks0 d) →
  is_Ok (main projection rows).
Proof.
  intros Hload Hproj Hall. unfold main. rewrite Hload. cbn [mbind result_bind].
  rewrite Hproj. cbn [mbind result_bind].
  destruct (generate_pie_chart_total dirs risks0 c (of_int 100) (of_int 200)
              T Hall) as [[inner outer] Hgen].
  rewrite Hgen. by eexists.
Qed.

(** X9: the run ends with a collection exactly when the table loads,
    the projection centred on its Center can be built, and every
    direction the table lists has a risk in both tiers. *)
Theorem run_succeeds_iff (projection : F → F → result (F → F → point F)) rows :
  is_Ok (main projection rows) ↔
  ∃ dirs risks0 c,
    load_csv_data rows = Ok (dirs, risks0, c)
    ∧ is_Ok (projection c.2 c.1)
    ∧ ∀ d, d ∈ dirs → complete risks0 d.
Proof.
  split.
  - intros [fc H]. unfold main in H.
    bind_split H as loaded Hload. destruct loaded as [[dirs risks0] c].
    bind_split H as T Hproj.
    bind_split H as charts Hgen. destruct charts as [inner outer].
    exists dirs, risks0, c. split_and!; [done | by exists T |].
    intros d Hd. apply list_elem_of_lookup in Hd as [i Hi].
    apply generate_pie_chart_inv in Hgen as (_ & _ & Hk).
    apply Hk in Hi as (fi & fo & _ & _ & Hs). by eapply sector_Ok_complete.
  - intros (dirs & risks0 & c & Hload & [T Hproj] & Hall).
    destruct (merged_features_total projection rows dirs risks0 c T Hload Hproj Hall)
      as [fc Hfc].
    by exists fc.
Qed.

End RunExtras.

(** * Further properties in exact arithmetic *)

Lemma INR_30 : INR 30 = 30%R.
Proof. rewrite INR_IZR_INZ. reflexivity. Qed.

(** The angle of sample [k], in exact arithmetic: the start angle plus
    [k] steps of one [n]-th of the span, in radians. *)
Lemma theta_exact (s e : R) (n k : nat) :
  n ≠ 0 →
  theta (F:=R) s e n k = ((s + INR k * ((e - s) / INR n)) * PI / 180)%R.
Proof.
  intros Hn. unfold theta. cbn [radians exact_math fadd fsub fmul fdiv of_int exact].
  assert (INR n ≠ 0)%R by (by apply not_0_INR).
  f_equal. f_equal. field. done.
Qed.

(** X11: in exact arithmetic, and read in the local plane, the sampler
    returns for n >= 1 the n + 1 points at the angles start + k * (end -
    start) / n, k = 0 .. n: the first is at the start angle, the last at
    the end angle, and each lies at distance radius from the origin. *)
Theorem arc_points_exact (c : point R) (r s e : R) (n : nat) :
  n ≥ 1 →
  ∃ points,
    calculate_arc_points (F:=R) c r s e stay_local n = Ok points
    ∧ length points = n + 1
    ∧ points !! 0
      = Some ((r * Rtrigo_def.sin (s * PI / 180))%R, (r * Rtrigo_def.cos (s * PI / 180))%R)
    ∧ points !! n
      = Some ((r * Rtrigo_def.sin (e * PI / 180))%R, (r * Rtrigo_def.cos (e * PI / 180))%R)
    ∧ ∀ k, k ≤ n →
        ∃ x y,
          points !! k = Some (x, y)
          ∧ x = (r * Rtrigo_def.sin ((s + INR k * ((e - s) / INR n)) * PI / 180))%R
          ∧ y = (r * Rtrigo_def.cos ((s + INR k * ((e - s) / INR n)) * PI / 180))%R
          ∧ (x * x + y * y = r * r)%R.
Proof.
  intros Hn. assert (n ≠ 0) as Hn0 by lia.
  assert (INR n ≠ 0)%R as HnR by (by apply not_0_INR).
  exists (sample r s e stay_local n <$> seq 0 (n + 1)).
  assert (∀ k, k ≤ n →
            (sample r s e stay_local n <$> seq 0 (n + 1)) !! k
            = Some ((r * Rtrigo_def.sin ((s + INR k * ((e - s) / INR n)) * PI / 180))%R,
                    (r * Rtrigo_def.cos ((s + INR k * ((e - s) / INR n)) * PI / 180))%R))
    as Hk.
  { intros k Hk. rewrite list_lookup_fmap, lookup_seq_lt by lia.
    cbn [fmap option_fmap option_map]. unfold sample, stay_local.
    rewrite theta_exact by done. reflexivity. }
  split_and!.
  - by apply calculate_arc_points_Ok.
  - by rewrite length_fmap, length_seq.
  - rewrite Hk by lia.
    replace ((s + INR 0 * ((e - s) / INR n)) * PI / 180)%R with (s * PI / 180)%R
      by (cbn [INR]; field; done).
    done.
  - rewrite Hk by lia.
    replace ((s + INR n * ((e - s) / INR n)) * PI / 180)%R with (e * PI / 180)%R
      by (field; done).
    done.
  - intros k Hle. eexists _, _. split; [by apply Hk|]. split; [done|]. split; [done|].
    pose proof (sin2_cos2 ((s + INR k * ((e - s) / INR n)) * PI / 180)) as H.
    unfold Rsqr in H. nra.
Qed.

(** In exact arithmetic the last sample of a sector is the first sample
    of the next one, the sector after the last one being the first. *)
Lemma boundary_sample_shared (N i : nat) (r : R) (T : R → R → point R) (s e s' e' : R) :
  i < N →
  segment_angles (F:=R) N i = Ok (s, e) →
  segment_angles (F:=R) N (S i `mod` N) = Ok (s', e') →
  sample r s e T 30 30 = sample r s' e' T 30 0.
Proof.
  intros Hi Hse Hse'. assert (N ≠ 0) as HN by lia.
  rewrite segment_angles_exact in Hse, Hse' by done.
  injection Hse as <- <-. injection Hse' as <- <-.
  assert (0 < INR N)%R as HNpos by (apply lt_0_INR; lia).
  unfold sample. rewrite !theta_exact by done. rewrite INR_30. cbn [INR].
  cbn [sin cos fmul exact exact_math].
  destruct (decide (S i < N)) as [Hlt|Hge].
  - rewrite Nat.mod_small by done. rewrite S_INR.
    replace ((INR i * (360 / INR N)
              + 30 * ((INR i * (360 / INR N) + 360 / INR N - INR i * (360 / INR N)) / 30))
             * PI / 180)%R
      with (((INR i + 1) * (360 / INR N)
             + 0 * (((INR i + 1) * (360 / INR N) + 360 / INR N
                     - (INR i + 1) * (360 / INR N)) / 30)) * PI / 180)%R
      by (field; lra).
    done.
  - assert (S i = N) as HiN by lia.
    rewrite HiN, Nat.Div0.mod_same. cbn [INR].
    assert (INR i = INR N - 1)%R as Hi' by (rewrite <- HiN, S_INR; lra).
    replace ((INR i * (360 / INR N)
              + 30 * ((INR i * (360 / INR N) + 360 / INR N - INR i * (360 / INR N)) / 30))
             * PI / 180)%R
      with (2 * PI)%R by (rewrite Hi'; field; lra).
    replace ((0 * (360 / INR N)
              + 0 * ((0 * (360 / INR N) + 360 / INR N - 0 * (360 / INR N)) / 30))
             * PI / 180)%R
      with 0%R by (field; lra).
    by rewrite sin_2PI, cos_2PI, sin_0, cos_0.
Qed.

(** X12: in exact arithmetic neighbouring sectors meet: the last arc point
    of the ring of a direction is the first arc point of the ring of
    the next direction, the first one following the last one, for the
    inner rings and for both arcs of the outer rings. *)
Theorem neighbouring_sectors_meet (directions : list string)
    (risks0 : gmap string (gmap string value)) (c : point R) (ri ro : R)
    (T : R → R → point R) inner outer (i : nat) (fi fo gi go : Feature R) :
  generate_pie_chart (F:=R) directions risks0 c ri ro T = Ok (inner, outer) →
  features inner !! i = Some fi → features outer !! i = Some fo →
  features inner !! (S i `mod` length directions) = Some gi →
  features outer !! (S i `mod` length directions) = Some go →
  ∃ p q,
    geometry fi !! 31 = Some p ∧ geometry gi !! 1 = Some p
    ∧ geometry fo !! 30 = Some q ∧ geometry go !! 0 = Some q
    ∧ geometry fo !! 31 = Some p ∧ geometry go !! 61 = Some p.
Proof.
  intros Hgen Hfi Hfo Hgi Hgo.
  apply generate_pie_chart_inv in Hgen as (Hli & Hlo & Hk).
  assert (i < length directions) as Hi by (rewrite <- Hli; by eapply lookup_lt_Some).
  set (j := S i `mod` length directions) in *.
  assert (j < length directions) as Hj by (rewrite <- Hli; by eapply lookup_lt_Some).
  destruct (lookup_lt_is_Some_2 directions i Hi) as [d Hd].
  destruct (lookup_lt_is_Some_2 directions j Hj) as [d' Hd'].
  apply Hk in Hd as (fi0 & fo0 & Hfi0 & Hfo0 & Hs).
  apply Hk in Hd' as (gi0 & go0 & Hgi0 & Hgo0 & Hs').
  assert (fi0 = fi) as -> by congruence. assert (fo0 = fo) as -> by congruence.
  assert (gi0 = gi) as -> by congruence. assert (go0 = go) as -> by congruence.
  apply sector_inv in Hs as (s & e & arc & Hse & Hin & Hout).
  apply sector_inv in Hs' as (s' & e' & arc' & Hse' & Hin' & Hout').
  apply inner_sector_inv in Hin as (Harc & Hgeo & _).
  apply inner_sector_inv in Hin' as (Harc' & Hgeo' & _).
  apply outer_sector_inv in Hout as (oarc & Hoarc & Hogeo & _).
  apply outer_sector_inv in Hout' as (oarc' & Hoarc' & Hogeo' & _).
  rewrite calculate_arc_points_30 in Harc, Harc', Hoarc, Hoarc'.
  assert (arc = sample ri s e T 30 <$> seq 0 31) as -> by congruence.
  assert (arc' = sample ri s' e' T 30 <$> seq 0 31) as -> by congruence.
  assert (oarc = sample ro s e T 30 <$> seq 0 31) as -> by congruence.
  assert (oarc' = sample ro s' e' T 30 <$> seq 0 31) as -> by congruence.
  exists (round_point (sample ri s e T 30 30)), (round_point (sample ro s e T 30 30)).
  rewrite Hgeo, Hgeo', Hogeo, Hogeo'.
  pose proof (boundary_sample_shared _ _ ri T s e s' e' Hi Hse Hse') as Hp.
  pose proof (boundary_sample_shared _ _ ro T s e s' e' Hi Hse Hse') as Hq.
  assert (∀ (a b : R) l, length ([c] ++ (sample ri a b T 30 <$> seq 0 31) ++ l) ≥ 32)
    as Hlen by (intros; rewrite !length_app, length_fmap, length_seq; cbn; lia).
  assert (∀ a b : R, length ((sample ro a b T 30 <$> seq 0 31)
                             ++ rev (sample ri a b T 30 <$> seq 0 31)) = 62)
    as Hlen' by (intros; by rewrite length_app, length_rev, !length_fmap, !length_seq).
  split_and!.
  - rewrite list_lookup_fmap, close_ring_lookup by (specialize (Hlen s e [c]); lia).
    reflexivity.
  - rewrite list_lookup_fmap, close_ring_lookup by (specialize (Hlen s' e' [c]); lia).
    rewrite Hp. reflexivity.
  - rewrite list_lookup_fmap, close_ring_lookup by (rewrite Hlen'; lia).
    reflexivity.
  - rewrite list_lookup_fmap, close_ring_lookup by (rewrite Hlen'; lia).
    rewrite Hq. reflexivity.
  - rewrite list_lookup_fmap, close_ring_lookup by (rewrite Hlen'; lia).
    reflexivity.
  - rewrite list_lookup_fmap, close_ring_lookup by (rewrite Hlen'; lia).
    rewrite Hp. reflexivity.
Qed.

(** * Further properties: what the run writes reads back *)

Lemma append_assoc (s t u : string) : (s +:+ t) +:+ u = s +:+ t +:+ u.
Proof. induction s as [|c s IH]; [done|]. by rewrite !append_cons, IH. Qed.

(** Whether a string starts with the separator is settled by as many
    characters as the separator has. *)
Lemma prefix_app_long (sep x y : string) :
  String.length sep ≤ String.length x →
  String.prefix sep (x +:+ y) = String.prefix sep x.
Proof.
  revert x. induction sep as [|c sep IH]; intros x Hlen.
  - destruct x; [by destruct y | done].
  - destruct x as [|c' x]; [cbn in Hlen; lia|].
    rewrite append_cons. cbn [String.prefix].
    destruct (Ascii.ascii_dec c c'); [|done].
    apply IH. cbn [String.length] in Hlen. lia.
Qed.

(** The first piece of a split is found again in front of any other rest. *)
Lemma split_first_piece (c0 : ascii) (sep0 a : string) :
  ∀ d rest t,
    split a (String c0 sep0) = d :: rest → rest ≠ [] →
    split (d +:+ String c0 sep0 +:+ t) (String c0 sep0) = d :: split t (String c0 sep0).
Proof.
  induction a as [|c a IH]; intros d rest t Hs Hrest.
  - injection Hs as <- <-. done.
  - unfold split in Hs. cbn [split_from] in Hs.
    destruct (String.prefix (String c0 sep0) (String c a)) eqn:Hp.
    + injection Hs as <- _. rewrite append_nil. apply split_at_separator.
    + pose proof (join_split (String c0 sep0) a) as Hj. unfold split in Hj.
      destruct (split_from (String c0 sep0) 0 a) as [|p ps] eqn:Ha.
      { by apply split_nonempty in Ha. }
      injection Hs as <- <-.
      destruct ps as [|p' ps]; [done|].
      rewrite join_cons in Hj. specialize (Hj ltac:(done)).
      assert (String.prefix (String c0 sep0) (String c p +:+ String c0 sep0 +:+ t) = false)
        as Hp'.
      { rewrite <- append_assoc, prefix_app_long
          by (rewrite length_append; cbn [String.length]; lia).
        rewrite <- Hj, <- append_cons, <- append_assoc in Hp.
        rewrite prefix_app_long in Hp
          by (rewrite length_append; cbn [String.length]; lia).
        exact Hp. }
      rewrite append_cons in Hp' |- *. unfold split. cbn [split_from]. rewrite Hp'.
      fold (split (p +:+ String c0 sep0 +:+ t) (String c0 sep0)).
      by rewrite (IH p (p' :: ps) t Ha).
Qed.

Section ReadBack.
Context {F : Type} `{!Float F} `{!Math F} `{!Geo F}.
Implicit Types (st : loader F) (row : gmap string value) (rows : list (gmap string value)).

(** Every listed direction is the first of the two pieces of an Area. *)
Lemma load_rows_listed_piece rows :
  ∀ st st',
    (∀ d, d ∈ directions st → ∃ area t, split area "_R" = [d; t]) →
    load_rows st rows = Ok st' →
    ∀ d, d ∈ directions st' → ∃ area t, split area "_R" = [d; t].
Proof.
  induction rows as [|row rows IH]; intros st st' Hall H.
  - by injection H as <-.
  - cbn [load_rows] in H. bind_split H as st1 Hst1.
    eapply IH; [|exact H]. intros d Hd.
    destruct (decide (is_site row)) as [Hs|Hs].
    + rewrite load_row_site in Hst1 by done. bind_split Hst1 as c Hc.
      injection Hst1 as <-. by apply Hall.
    + apply load_row_key in Hst1 as (d0 & t0 & risk & tier & Hk & _ & _ & ->); [|done].
      cbn [directions] in Hd.
      assert (d = d0 ∨ d ∈ directions st) as [->|Hold].
      { case_decide; [by right|]. apply elem_of_app in Hd as [?|Hd]; [by right|].
        apply list_elem_of_singleton in Hd. by left. }
      * apply row_key_Some in Hk as (area & _ & _ & Hsp). by exists area, t0.
      * by apply Hall.
Qed.

(** The Area written for a listed direction splits back into the
    direction and the tier. *)
Lemma listed_area_splits rows dirs (risks0 : gmap string (gmap string value))
    (c : point F) d :
  load_csv_data rows = Ok (dirs, risks0, c) → d ∈ dirs →
  split (d +:+ "_R1") "_R" = [d; "1"] ∧ split (d +:+ "_R2") "_R" = [d; "2"].
Proof.
  intros H Hd. apply load_csv_data_Ok in H as (st & Hst & <- & _).
  destruct (load_rows_listed_piece rows loader_init st) with (d := d)
    as (area & t & Hsp); [|done|done|].
  { intros d' Hd'. by apply elem_of_nil in Hd'. }
  split.
  - change (d +:+ "_R1") with (d +:+ "_R" +:+ "1").
    by rewrite (split_first_piece _ _ area d [t] "1" Hsp).
  - change (d +:+ "_R2") with (d +:+ "_R" +:+ "2").
    by rewrite (split_first_piece _ _ area d [t] "2" Hsp).
Qed.

(** X10: every feature the run writes can be read back: its Area splits at
    _R into a direction of the table and the tier 1 or 2, and its Risk
    is the risk the loader recorded for that direction and tier. *)
Theorem output_reads_back (projection : F → F → result (F → F → point F)) rows fc :
  main projection rows = Ok fc →
  ∃ dirs risks0 c,
    load_csv_data rows = Ok (dirs, risks0, c)
    ∧ ∀ f, f ∈ features fc →
        ∃ d t,
          split (Area (props f)) "_R" = [d; t]
          ∧ (t = "1" ∨ t = "2")
          ∧ d ∈ dirs
          ∧ lookup_risk risks0 d t = Some (Risk (props f)).
Proof.
  intros H. unfold main in H.
  bind_split H as loaded Hload. destruct loaded as [[dirs risks0] c].
  bind_split H as T Hproj.
  bind_split H as charts Hgen. destruct charts as [inner outer].
  injection H as <-. exists dirs, risks0, c. split; [done|].
  pose proof (generate_pie_chart_inv _ _ _ _ _ _ _ _ Hgen) as (Hli & Hlo & Hk).
  intros f Hf. cbn [merge_inner_outer features] in Hf.
  assert (∃ i d fi fo,
            dirs !! i = Some d
            ∧ sector (length dirs) risks0 c (of_int 100) (of_int 200)
                T i d = Ok (fi, fo)
            ∧ (f = fi ∨ f = fo)) as (i & d & fi & fo & Hd & Hs & Hffo).
  { apply elem_of_app in Hf as [Hf|Hf]; apply list_elem_of_lookup in Hf as [i Hi].
    - destruct (lookup_lt_is_Some_2 dirs i) as [d Hd].
      { rewrite <- Hli. by eapply lookup_lt_Some. }
      destruct (Hk i d Hd) as (fi & fo & Hfi & _ & Hs).
      exists i, d, fi, fo. split_and!; [done..|]. left. congruence.
    - destruct (lookup_lt_is_Some_2 dirs i) as [d Hd].
      { rewrite <- Hlo. by eapply lookup_lt_Some. }
      destruct (Hk i d Hd) as (fi & fo & _ & Hfo & Hs).
      exists i, d, fi, fo. split_and!; [done..|]. right. congruence. }
  assert (d ∈ dirs) as Hin by (by eapply list_elem_of_lookup_2).
  destruct (listed_area_splits rows dirs risks0 c d Hload Hin) as [H1 H2].
  apply sector_inv in Hs as (s & e & arc & _ & Hi & Ho).
  apply inner_sector_inv in Hi as (_ & _ & Hai & t1 & Ht1 & Hv1).
  apply outer_sector_inv in Ho as (_ & _ & _ & Hao & t2 & Ht2 & Hv2).
  destruct Hffo as [-> | ->].
  - exists d, "1". rewrite Hai. split_and!; [done | by left | done |].
    unfold lookup_risk. rewrite append_cons, append_nil, Ht1. done.
  - exists d, "2". rewrite Hao. split_and!; [done | by right | done |].
    unfold lookup_risk. rewrite append_cons, append_nil, Ht2. done.
Qed.

Lemma site_rows_load rows :
  ∀ st, Forall (fun row => is_site row ∧ is_Ok (site_center (F:=F) row)) rows →
    ∃ st', load_rows st rows = Ok st' ∧ same_tables st st'
           ∧ (rows ≠ [] → is_Some (center st')) ∧ (rows = [] → st' = st).
Proof.
  induction rows as [|row rows IH]; intros st Hall.
  - exists st. by split_and!.
  - apply Forall_cons in Hall as [[Hs [c Hc]] Hall].
    cbn [load_rows]. rewrite load_row_site by done. rewrite Hc. cbn [mbind result_bind].
    destruct (IH {| directions := directions st; risks := risks st; center := Some c |} Hall)
      as (st' & Hst' & Hsame & Hsome & Hnil).
    exists st'. split_and!; [done | done | | done].
    intros _. destruct rows as [|r rows]; [|by apply Hsome].
    rewrite Hnil by done. by eexists.
Qed.

(** X6: a table that has Site rows with readable coordinates and no other
    row loads with no direction; when the projection centred on its
    Center can be built the run gives the empty collection: with no
    direction the assembler never divides 360 by the number of
    directions. When the projection is refused the run ends with that
    error. *)
Theorem site_only_table_empty_chart (projection : F → F → result (F → F → point F)) rows :
  rows ≠ [] →
  Forall (fun row => is_site row ∧ is_Ok (site_center (F:=F) row)) rows →
  ∃ c,
    load_csv_data rows = Ok ([], {[ "R1" := ∅; "R2" := ∅ ]}, c)
    ∧ (is_Ok (projection c.2 c.1) →
       main projection rows = Ok (Build_FeatureCollection []))
    ∧ (∀ e, projection c.2 c.1 = Raise e → main projection rows = Raise e).
Proof.
  intros Hne Hall.
  destruct (site_rows_load rows loader_init Hall) as (st & Hst & [Hd Hr] & Hc & _).
  destruct (Hc Hne) as [c Hcenter]. exists c.
  assert (load_csv_data rows = Ok ([], {[ "R1" := ∅; "R2" := ∅ ]}, c)) as Hload.
  { unfold load_csv_data. rewrite Hst. cbn [mbind result_bind].
    by rewrite Hcenter, <- Hd, <- Hr. }
  split_and!; [done| |].
  - intros [T HT]. unfold main. rewrite Hload. cbn [mbind result_bind].
    rewrite HT. reflexivity.
  - intros e He. unfold main. rewrite Hload. cbn [mbind result_bind].
    by rewrite He.
Qed.

End ReadBack.

(** ** The further properties at concrete tables *)

(** In the table with three Site rows the inner risk of N is the one of
    its only row. *)
Lemma loaded_risk_last_row_witness :
  ∃ dirs risks0 c,
    load_csv_data (F:=R) moved_site_table = Ok (dirs, risks0, c)
    ∧ (lookup_risk risks0 "N" "1" = Some (PyStr "High") ↔
       ∃ pre row post,
         moved_site_table = pre ++ row :: post ∧ row_key row = Some ("N", "1")
         ∧ row !! "Risk" = Some (PyStr "High")
         ∧ Forall (fun r => row_key r ≠ Some ("N", "1")) post).
Proof.
  eexists _, _, _. split; [vm_compute; reflexivity|].
  eapply (loaded_risk_last_row (F:=R) moved_site_table). vm_compute. reflexivity.
Defined.

Lemma loaded_directions_exact_witness :
  load_csv_data (F:=R) compass_table
  = Ok (compass_directions, compass_risks, ((100 / 10)%R, (450 / 10)%R))
  ∧ NoDup compass_directions
  ∧ ∀ d, d ∈ compass_directions ↔ ∃ t, is_Some (lookup_risk compass_risks d t).
Proof.
  split; [exact compass_table_loads|].
  exact (loaded_directions_exact (F:=R) compass_table compass_directions compass_risks
           ((100 / 10)%R, (450 / 10)%R) compass_table_loads).
Defined.

(** The compass table starts with the cut table. *)
Lemma loaded_directions_prefix_witness :
  load_csv_data (F:=R) cut_table
  = Ok (["N"; "E"], {[ "R1" := cut_inner; "R2" := cut_outer ]},
        ((100 / 10)%R, (450 / 10)%R))
  ∧ load_csv_data (F:=R)
      (cut_table ++ [risk_row "E_R2" "Low"; risk_row "S_R1" "Medium";
                     risk_row "S_R2" "High"; risk_row "W_R1" "Low";
                     risk_row "W_R2" "Medium"])
    = Ok (compass_directions, compass_risks, ((100 / 10)%R, (450 / 10)%R))
  ∧ ["N"; "E"] `prefix_of` compass_directions.
Proof.
  split; [exact cut_table_loads|]. split; [exact compass_table_loads|].
  exact (loaded_directions_prefix (F:=R) cut_table _ _ _ _ _ _ _
           cut_table_loads compass_table_loads).
Defined.

Lemma row_accepted_iff_witness :
  loader_inv (loader_init (F:=R))
  ∧ ¬ is_site (risk_row "N_R1" "High")
  ∧ (is_Ok (load_row (F:=R) loader_init (risk_row "N_R1" "High")) ↔
     ∃ d t, row_key (risk_row "N_R1" "High") = Some (d, t)
            ∧ (t = "1" ∨ t = "2") ∧ is_Some (risk_row "N_R1" "High" !! "Risk")).
Proof.
  assert (¬ is_site (risk_row "N_R1" "High")) as Hs by (by apply risk_row_not_site).
  split; [apply loader_init_inv|]. split; [exact Hs|].
  exact (row_accepted_iff (F:=R) loader_init (risk_row "N_R1" "High")
           loader_init_inv Hs).
Defined.

(** A Site row without its coordinates, before a Site row with them. *)
Lemma unreadable_site_row_aborts_witness :
  load_rows (F:=R) loader_init [risk_row "N_R1" "High"]
  = Ok {| directions := ["N"];
          risks := {[ "R1" := {[ "N" := PyStr "High" ]}; "R2" := ∅ ]};
          center := None |}
  ∧ is_site (site_row "" "45.0")
  ∧ site_center (F:=R) (site_row "" "45.0")
    = Raise (ValueError "could not convert string to float")
  ∧ load_csv_data (F:=R)
      ([risk_row "N_R1" "High"] ++ site_row "" "45.0" :: [site_row "10.0" "45.0"])
    = Raise (ValueError "could not convert string to float").
Proof.
  assert (load_rows (F:=R) loader_init [risk_row "N_R1" "High"]
          = Ok {| directions := ["N"];
                  risks := {[ "R1" := {[ "N" := PyStr "High" ]}; "R2" := ∅ ]};
                  center := None |}) as Hpre by (vm_compute; reflexivity).
  assert (site_center (F:=R) (site_row "" "45.0")
          = Raise (ValueError "could not convert string to float")) as He
    by (vm_compute; reflexivity).
  split; [exact Hpre|]. split; [apply site_row_is_site|]. split; [exact He|].
  exact (unreadable_site_row_aborts (F:=R) _ _ [site_row "10.0" "45.0"] _ _
           Hpre (site_row_is_site "" "45.0") He).
Defined.

(** The cut table: the assembler stops on E. *)
Lemma assembler_raises_key_error_only_witness :
  generate_pie_chart (F:=R) ["N"; "E"] {[ "R1" := cut_inner; "R2" := cut_outer ]}
    (10, 45)%R 100%R 200%R (planar_to_geo 45 10) = Raise (KeyError "E")
  ∧ ∃ k, KeyError "E" = KeyError k ∧ (k = "R1" ∨ k = "R2" ∨ k ∈ ["N"; "E"]).
Proof.
  assert (generate_pie_chart (F:=R) ["N"; "E"] {[ "R1" := cut_inner; "R2" := cut_outer ]}
            (10, 45)%R 100%R 200%R (planar_to_geo 45 10) = Raise (KeyError "E")) as H
    by (vm_compute; reflexivity).
  split; [exact H|].
  exact (assembler_raises_key_error_only (F:=R) _ _ _ _ _ _ _ H).
Defined.

Lemma compass_chart :
  is_Ok (generate_pie_chart (F:=R) compass_directions compass_risks (10, 45)%R
           100%R 200%R (planar_to_geo 45 10)).
Proof. apply generate_pie_chart_total, compass_risks_complete. Qed.

(** The rings of the compass table. *)
Lemma ring_sizes_witness :
  ∃ inner outer,
    generate_pie_chart (F:=R) compass_directions compass_risks (10, 45)%R
      100%R 200%R (planar_to_geo 45 10) = Ok (inner, outer)
    ∧ (∀ f, f ∈ features inner →
         length (geometry f) = if same_point (10, 45)%R (10, 45)%R then 33 else 34)
    ∧ (∀ i f s e,
         features outer !! i = Some f →
         segment_angles (length compass_directions) i = Ok (s, e) →
         length (geometry f)
         = if same_point (sample 200%R s e (planar_to_geo 45 10) 30 0)
                         (sample 100%R s e (planar_to_geo 45 10) 30 0)
           then 62 else 63)
    ∧ (∀ f, f ∈ features outer →
         length (geometry f) = 62 ∨ length (geometry f) = 63).
Proof.
  destruct compass_chart as [[inner outer] Hgen].
  exists inner, outer. split; [exact Hgen|].
  exact (ring_sizes (F:=R) _ _ _ _ _ _ _ _ Hgen).
Defined.

(** The compass table is a table the run ends well on. *)
Lemma run_succeeds_iff_witness :
  is_Ok (main planar_projection compass_table) ↔
  ∃ dirs risks0 c,
    load_csv_data (F:=R) compass_table = Ok (dirs, risks0, c)
    ∧ is_Ok (planar_projection c.2 c.1)
    ∧ ∀ d, d ∈ dirs → complete risks0 d.
Proof. exact (run_succeeds_iff (F:=R) planar_projection compass_table). Defined.

(** A quarter circle of radius 100 in thirty steps. *)
Lemma arc_points_exact_witness :
  30 ≥ 1
  ∧ ∃ points,
      calculate_arc_points (F:=R) (10, 45)%R 100%R 0%R 90%R stay_local 30 = Ok points
      ∧ length points = 30 + 1
      ∧ points !! 0
        = Some ((100 * Rtrigo_def.sin (0 * PI / 180))%R,
                (100 * Rtrigo_def.cos (0 * PI / 180))%R)
      ∧ points !! 30
        = Some ((100 * Rtrigo_def.sin (90 * PI / 180))%R,
                (100 * Rtrigo_def.cos (90 * PI / 180))%R)
      ∧ ∀ k, k ≤ 30 →
          ∃ x y,
            points !! k = Some (x, y)
            ∧ x = (100 * Rtrigo_def.sin ((0 + INR k * ((90 - 0) / INR 30)) * PI / 180))%R
            ∧ y = (100 * Rtrigo_def.cos ((0 + INR k * ((90 - 0) / INR 30)) * PI / 180))%R
            ∧ (x * x + y * y = 100 * 100)%R.
Proof.
  split; [lia|].
  apply (arc_points_exact (10, 45)%R 100%R 0%R 90%R 30). lia.
Defined.

(** The last sector of the compass table meets the first one. *)
Lemma neighbouring_sectors_meet_witness :
  ∃ inner outer fi fo gi go,
    generate_pie_chart (F:=R) compass_directions compass_risks (10, 45)%R
      100%R 200%R (planar_to_geo 45 10) = Ok (inner, outer)
    ∧ features inner !! 3 = Some fi ∧ features outer !! 3 = Some fo
    ∧ features inner !! (4 `mod` length compass_directions) = Some gi
    ∧ features outer !! (4 `mod` length compass_directions) = Some go
    ∧ ∃ p q,
        geometry fi !! 31 = Some p ∧ geometry gi !! 1 = Some p
        ∧ geometry fo !! 30 = Some q ∧ geometry go !! 0 = Some q
        ∧ geometry fo !! 31 = Some p ∧ geometry go !! 61 = Some p.
Proof.
  destruct compass_chart as [[inner outer] Hgen].
  pose proof (generate_pie_chart_inv _ _ _ _ _ _ _ _ Hgen) as (_ & _ & Hk).
  destruct (Hk 3 "W" eq_refl) as (fi & fo & Hfi & Hfo & _).
  destruct (Hk 0 "N" eq_refl) as (gi & go & Hgi & Hgo & _).
  exists inner, outer, fi, fo, gi, go.
  split; [exact Hgen|]. split; [exact Hfi|]. split; [exact Hfo|].
  split; [exact Hgi|]. split; [exact Hgo|].
  exact (neighbouring_sectors_meet compass_directions compass_risks (10, 45)%R
           100%R 200%R (planar_to_geo 45 10) inner outer 3 fi fo gi go
           Hgen Hfi Hfo Hgi Hgo).
Defined.

Lemma output_reads_back_witness :
  ∃ fc,
    main planar_projection compass_table = Ok fc
    ∧ ∃ dirs risks0 c,
        load_csv_data (F:=R) compass_table = Ok (dirs, risks0, c)
        ∧ ∀ f, f ∈ features fc →
            ∃ d t,
              split (Area (props f)) "_R" = [d; t]
              ∧ (t = "1" ∨ t = "2")
              ∧ d ∈ dirs
              ∧ lookup_risk risks0 d t = Some (Risk (props f)).
Proof.
  destruct (merged_features_total (F:=R) planar_projection compass_table _ _ _
              (planar_to_geo (450 / 10) (100 / 10))
              compass_table_loads ltac:(apply planar_projection_Ok; cbn; lra)
              compass_risks_complete) as [fc Hfc].
  exists fc. split; [exact Hfc|].
  exact (output_reads_back (F:=R) planar_projection compass_table fc Hfc).
Defined.

(** A lone Site row at (10.0, 45.0), and one at latitude 95. *)
Lemma site_only_table_empty_chart_witness :
  [site_row "10.0" "45.0"] ≠ []
  ∧ Forall (fun row => is_site row ∧ is_Ok (site_center (F:=R) row)) [site_row "10.0" "45.0"]
  ∧ ∃ c,
      load_csv_data (F:=R) [site_row "10.0" "45.0"]
      = Ok ([], {[ "R1" := ∅; "R2" := ∅ ]}, c)
      ∧ (is_Ok (planar_projection c.2 c.1) →
         main planar_projection [site_row "10.0" "45.0"] = Ok (Build_FeatureCollection []))
      ∧ (∀ e, planar_projection c.2 c.1 = Raise e →
           main planar_projection [site_row "10.0" "45.0"] = Raise e).
Proof.
  assert (Forall (fun row => is_site row ∧ is_Ok (site_center (F:=R) row))
            [site_row "10.0" "45.0"]) as Hall.
  { constructor; [|constructor]. split; [apply site_row_is_site|].
    eexists. vm_compute. reflexivity. }
  split; [done|]. split; [exact Hall|].
  exact (site_only_table_empty_chart (F:=R) planar_projection [site_row "10.0" "45.0"]
           ltac:(done) Hall).
Defined.
